(** * DocumentAnalyzer: a shallow embedding of the analysis pipeline

    The development follows [src/services/DocumentAnalyzer.js] and the
    route of [src/index.js] that calls it.

    A finite JavaScript number is the rational it denotes ([Q]).  Wherever
    the source decides something on the result of arithmetic (the variance
    threshold of the font-size detector, the spacing thresholds, the page
    index of a rectangle) the arithmetic is that of IEEE 754 doubles, as
    [Double] defines it: every operation rounds to the nearest double, ties
    to even, overflows to an infinity and yields NaN where JavaScript does.
    The sign of zero is not kept.  Values that are only reported (the
    scores, the coordinates of a rectangle) are computed exactly; the colour
    components, which need a sine, are reals.

    JavaScript containers keep insertion order: a [Map] is an association
    list with unique keys, a [Set] a duplicate-free list, an array a list.
    A plain object used as a map lists the keys that are array indices
    first and does not own the key [__proto__] ([JsObject]).

    Names are those of the source.  Where two objects of the source share a
    property name, the records are kept apart by a module ([Position.x],
    [Item.width]) or a prefix ([issueContext], [incFontSize]). *)

From Stdlib Require Import List String Ascii Bool Arith Lia ZArith.
From Stdlib Require Import QArith Qminmax Qround Qreals Qabs Qreduction Qpower.
From Stdlib Require Import Reals Lra Lqa Psatz DecimalString Permutation.
Import ListNotations.

Local Open Scope string_scope.
Local Open Scope list_scope.

(* ------------------------------------------------------------------ *)
(** ** Data model *)

Module Position.
Record t := mk { x : Q; y : Q }.
End Position.

(** One entry of the array built by [extractFontMetrics]. *)
Record Metric := mkMetric {
  text : string;
  fontSize : Q;
  fontFamily : string;
  position : Position.t;
  width : Q;
  height : Q
}.

Inductive Context := header | subheader | body.

Inductive Severity := high | medium | low.

(* ------------------------------------------------------------------ *)
(** ** IEEE 754 double arithmetic

    A double is a rational, an infinity or NaN.  [round] is rounding to the
    nearest double with 53 bits of precision and exponents from -1022 to
    1023, ties to even; every operation is the exact one followed by
    [round], with the special cases of IEEE 754. *)

Module Double.

Inductive t := Finite (q : Q) | PosInfinity | NegInfinity | NaN.

Definition two : Q := 2.

(** [floor (log2 a)] for a positive [a]. *)
Definition ilog2 (a : Q) : Z :=
  let e0 := (Z.log2 (Qnum a) - Z.log2 (Zpos (Qden a)))%Z in
  if Qle_bool (two ^ e0) a then e0 else (e0 - 1)%Z.

(** The integer nearest to [r], the even one of two equally near. *)
Definition roundHalfEven (r : Q) : Z :=
  let f := Qfloor r in
  match (r - inject_Z f ?= 1 # 2)%Q with
  | Lt => f
  | Gt => (f + 1)%Z
  | Eq => if Z.even f then f else (f + 1)%Z
  end.

(** A magnitude of at least [2^1024] is an infinity. *)
Definition overflow (positive : bool) (v : Q) : t :=
  if Qle_bool (two ^ 1024) v
  then (if positive then PosInfinity else NegInfinity)
  else Finite (if positive then v else Qred (- v)).

(** The double nearest to [q]: [q] is scaled by the unit in the last place
    of its binade (that of the subnormals below [2^-1022]) and rounded to
    an integer. *)
Definition round (q : Q) : t :=
  let q := Qred q in
  if Qeq_bool q 0 then Finite 0
  else
    let a := Qabs q in
    let e := Z.max (ilog2 a) (-1022) in
    let u := (two ^ (e - 52))%Q in
    let n := roundHalfEven (a / u) in
    overflow (Qle_bool 0 q) (Qred (inject_Z n * u)).

Definition opp (x : t) : t :=
  match x with
  | Finite q => Finite (Qred (- q))
  | PosInfinity => NegInfinity
  | NegInfinity => PosInfinity
  | NaN => NaN
  end.

Definition add (x y : t) : t :=
  match x, y with
  | NaN, _ | _, NaN => NaN
  | Finite a, Finite b => round (a + b)
  | PosInfinity, NegInfinity | NegInfinity, PosInfinity => NaN
  | PosInfinity, _ | _, PosInfinity => PosInfinity
  | NegInfinity, _ | _, NegInfinity => NegInfinity
  end.

Definition sub (x y : t) : t := add x (opp y).

(** The sign of a value that is not [NaN]: [Some true] for positive. *)
Definition sign (x : t) : option bool :=
  match x with
  | Finite q => if Qeq_bool q 0 then None else Some (Qle_bool 0 q)
  | PosInfinity => Some true
  | NegInfinity => Some false
  | NaN => None
  end.

Definition infinity (positive : bool) : t :=
  if positive then PosInfinity else NegInfinity.

Definition mul (x y : t) : t :=
  match x, y with
  | NaN, _ | _, NaN => NaN
  | Finite a, Finite b => round (a * b)
  | _, _ =>
      match sign x, sign y with
      | Some s, Some s' => infinity (Bool.eqb s s')
      | _, _ => NaN
      end
  end.

Definition div (x y : t) : t :=
  match x, y with
  | NaN, _ | _, NaN => NaN
  | Finite a, Finite b =>
      if Qeq_bool b 0
      then match sign x with Some s => infinity s | None => NaN end
      else round (a / b)
  | Finite _, _ => Finite 0
  | _, Finite b => match sign x with
                   | Some s => infinity (Bool.eqb s (Qle_bool 0 b))
                   | None => NaN
                   end
  | _, _ => NaN
  end.

(** [Math.sqrt]: the correctly rounded square root, decided on integers. *)
Definition sqrt (x : t) : t :=
  match x with
  | Finite a =>
      let a := Qred a in
      if Qeq_bool a 0 then Finite 0
      else if Qle_bool a 0 then NaN
      else
        let e := Z.max (ilog2 a / 2)%Z (-1022) in
        let u := (two ^ (e - 52))%Q in
        let t := (a / (u * u))%Q in
        let f := Z.sqrt (Qfloor t) in
        let n :=
          match (4 * t ?= inject_Z ((2 * f + 1) * (2 * f + 1)))%Q with
          | Lt => f
          | Gt => (f + 1)%Z
          | Eq => if Z.even f then f else (f + 1)%Z
          end in
        Finite (Qred (inject_Z n * u))
  | PosInfinity => PosInfinity
  | NegInfinity | NaN => NaN
  end.

(** [x < y]; false as soon as one side is NaN. *)
Definition ltb (x y : t) : bool :=
  match x, y with
  | NaN, _ | _, NaN => false
  | Finite a, Finite b => negb (Qle_bool b a)
  | NegInfinity, NegInfinity => false
  | NegInfinity, _ => true
  | _, PosInfinity => match x with PosInfinity => false | _ => true end
  | _, _ => false
  end.

(** [x > y] *)
Definition gtb (x y : t) : bool := ltb y x.

(** [Math.pow(x, 2)], which is [x * x]. *)
Definition square (x : t) : t := mul x x.

End Double.

(** The double a decimal literal of the source denotes. *)
Definition literal (q : Q) : Q :=
  match Double.round q with
  | Double.Finite v => v
  | _ => 0
  end.


(** The [details] object of an issue: [{ mean, variance }] for a font-size
    issue, [{ spacing }] for a spacing issue. *)
Inductive Details :=
| SizeDetails (mean variance : Double.t)
| SpacingDetails (spacing : Double.t).

(** An element of one of the [inconsistencies] arrays.  Fields an object
    literal of the source leaves out are [None]. *)
Record Issue := mkIssue {
  issueType : string;
  issueContext : option Context;
  description : string;
  severity : Severity;
  detectedFonts : option (list string);
  issuePosition : option Position.t;
  details : option Details
}.

Definition Context_eqb (a b : Context) : bool :=
  match a, b with
  | header, header | subheader, subheader | body, body => true
  | _, _ => false
  end.

(** [a > b] on numbers. *)
Definition Qgtb (a b : Q) : bool := negb (Qle_bool a b).

(** [a < b] on numbers. *)
Definition Qltb (a b : Q) : bool := negb (Qle_bool b a).

(* ------------------------------------------------------------------ *)
(** ** JavaScript [Map] and [Set], in insertion order *)

Module JsMap.
Section Ops.
Variables K V : Type.
Variable eqb : K -> K -> bool.

Fixpoint has (k : K) (m : list (K * V)) : bool :=
  match m with
  | [] => false
  | (k', _) :: r => if eqb k' k then true else has k r
  end.

Fixpoint get (k : K) (m : list (K * V)) : option V :=
  match m with
  | [] => None
  | (k', v) :: r => if eqb k' k then Some v else get k r
  end.

(** [m.set(k, v)]: an existing key keeps its place, a new one goes last. *)
Fixpoint set (k : K) (v : V) (m : list (K * V)) : list (K * V) :=
  match m with
  | [] => [(k, v)]
  | (k', v') :: r => if eqb k' k then (k', v) :: r else (k', v') :: set k v r
  end.

(** [m.get(k).mutate()]: the value stored under [k] is updated in place. *)
Fixpoint alter (f : V -> V) (k : K) (m : list (K * V)) : list (K * V) :=
  match m with
  | [] => []
  | (k', v) :: r => if eqb k' k then (k', f v) :: r else (k', v) :: alter f k r
  end.
End Ops.
Arguments has {K V} eqb k m.
Arguments get {K V} eqb k m.
Arguments set {K V} eqb k v m.
Arguments alter {K V} eqb f k m.
End JsMap.

Module JsSet.
Definition has (x : string) (s : list string) : bool :=
  existsb (String.eqb x) s.

(** [s.add(x)] *)
Definition add (x : string) (s : list string) : list string :=
  if has x s then s else s ++ [x].
End JsSet.

(* ------------------------------------------------------------------ *)
(** ** A plain JavaScript object used as a map

    The object is the list of its properties in the order [Object.entries]
    lists them: the keys that are array indices first, in ascending order,
    then the other keys in the order they were first assigned.  Assigning
    an object to [__proto__] installs it as the prototype and creates no
    own property: it is kept in the list, where a lookup finds it, and
    left out of the own properties. *)

Module JsObject.

Definition digit (c : ascii) : option N :=
  let n := N_of_ascii c in
  if ((48 <=? n) && (n <=? 57))%N then Some (n - 48)%N else None.

Fixpoint digits (s : string) (acc : N) : option N :=
  match s with
  | EmptyString => Some acc
  | String c r =>
      match digit c with
      | Some d => digits r (10 * acc + d)%N
      | None => None
      end
  end.

(** The array index a key denotes: a canonical decimal numeral below
    [2^32 - 1]. *)
Definition arrayIndex (k : string) : option N :=
  match k with
  | EmptyString => None
  | String c r =>
      if Ascii.eqb c "0" && negb (String.eqb r "") then None
      else match digits k 0 with
           | Some n => if (n <? 4294967295)%N then Some n else None
           | None => None
           end
  end.

Section Ops.
Variable V : Type.

(** A new property whose key is the array index [i]. *)
Fixpoint insertIndex (i : N) (k : string) (v : V) (o : list (string * V))
  : list (string * V) :=
  match o with
  | [] => [(k, v)]
  | (k', v') :: r =>
      match arrayIndex k' with
      | Some j => if (i <? j)%N then (k, v) :: o
                  else (k', v') :: insertIndex i k v r
      | None => (k, v) :: o
      end
  end.

(** [o[k] = v] *)
Definition set (k : string) (v : V) (o : list (string * V))
  : list (string * V) :=
  if JsMap.has String.eqb k o then JsMap.set String.eqb k v o
  else match arrayIndex k with
       | Some i => insertIndex i k v o
       | None => o ++ [(k, v)]
       end.

(** [Object.entries(o)] *)
Definition entries (o : list (string * V)) : list (string * V) :=
  filter (fun '(k, _) => negb (String.eqb k "__proto__")) o.

End Ops.
Arguments insertIndex {V} i k v o.
Arguments set {V} k v o.
Arguments entries {V} o.
End JsObject.

(** Template-literal rendering of a count. *)
Definition showNat (n : nat) : string :=
  NilEmpty.string_of_uint (Nat.to_uint n).

(* ------------------------------------------------------------------ *)
(** ** Context classifier *)

Definition determineContext (metric : Metric) : Context :=
  if Qgtb (fontSize metric) 20 then header
  else if Qgtb (fontSize metric) 14 then subheader
  else body.

(* ------------------------------------------------------------------ *)
(** ** Font-family detector *)

(** The object pushed for a context with too many families. *)
Definition familyIssue (context : Context) (fonts : list string) : Issue :=
  {| issueType := "fontFamily";
     issueContext := Some context;
     description := "Multiple font families (" ++ showNat (List.length fonts)
                    ++ ") detected in same context";
     severity := high;
     detectedFonts := Some fonts;
     issuePosition := None;
     details := None |}.

(** The [metrics.forEach] pass that fills [fontFamilyGroups]. *)
Definition fontFamilyGroups (metrics : list Metric)
  : list (Context * list string) :=
  fold_left
    (fun groups metric =>
       let context := determineContext metric in
       let groups :=
         if JsMap.has Context_eqb context groups then groups
         else JsMap.set Context_eqb context [] groups in
       JsMap.alter Context_eqb (JsSet.add (fontFamily metric)) context groups)
    metrics [].

Definition analyzeFontFamilyConsistency (metrics : list Metric) : list Issue :=
  fold_left
    (fun inconsistencies '(context, fonts) =>
       if (2 <? List.length fonts)%nat
       then inconsistencies ++ [familyIssue context fonts]
       else inconsistencies)
    (fontFamilyGroups metrics) [].

(* ------------------------------------------------------------------ *)
(** ** Font-size detector *)

(** [array.reduce(f)] without an initial value: a [TypeError] on the empty
    array, rendered as [None]. *)
Definition reduce1 (f : Double.t -> Double.t -> Double.t) (l : list Q)
  : option Double.t :=
  match l with
  | [] => None
  | a :: r => Some (fold_left (fun s b => f s (Double.Finite b)) r
                              (Double.Finite a))
  end.

(** [sizes.length] as a number. *)
Definition lengthQ {A : Type} (l : list A) : Q :=
  inject_Z (Z.of_nat (List.length l)).

Definition sizeIssue (context : Context) (mean variance : Double.t)
  : Issue :=
  {| issueType := "fontSize";
     issueContext := Some context;
     description := "Suspicious font size variations detected";
     severity := medium;
     detectedFonts := None;
     issuePosition := None;
     details := Some (SizeDetails mean variance) |}.

(** The [metrics.forEach] pass that fills [fontSizeGroups]. *)
Definition fontSizeGroups (metrics : list Metric) : list (Context * list Q) :=
  fold_left
    (fun groups metric =>
       let context := determineContext metric in
       let groups :=
         if JsMap.has Context_eqb context groups then groups
         else JsMap.set Context_eqb context [] groups in
       JsMap.alter Context_eqb (fun sizes => sizes ++ [fontSize metric])
                   context groups)
    metrics [].

(** The [for (const [context, sizes] of fontSizeGroups)] loop; [None] is the
    exception [reduce] raises on an empty array.  The sums, the quotients
    and the squares are those of doubles. *)
Fixpoint fontSizeLoop (groups : list (Context * list Q))
         (inconsistencies : list Issue) : option (list Issue) :=
  match groups with
  | [] => Some inconsistencies
  | (context, sizes) :: rest =>
      match reduce1 Double.add sizes with
      | None => None
      | Some total =>
          let mean := Double.div total (Double.Finite (lengthQ sizes)) in
          let variance :=
            Double.div
              (fold_left
                 (fun a b =>
                    Double.add a
                      (Double.square (Double.sub (Double.Finite b) mean)))
                 sizes (Double.Finite 0))
              (Double.Finite (lengthQ sizes)) in
          if Double.gtb variance (Double.Finite 2)
          then fontSizeLoop rest
                 (inconsistencies ++ [sizeIssue context mean variance])
          else fontSizeLoop rest inconsistencies
      end
  end.

Definition analyzeFontSizeConsistency (metrics : list Metric)
  : option (list Issue) :=
  fontSizeLoop (fontSizeGroups metrics) [].

(* ------------------------------------------------------------------ *)
(** ** Spacing detector *)

Definition calculateSpacing (prev current : Metric) : Double.t :=
  Double.sqrt
    (Double.add
       (Double.square
          (Double.sub
             (Double.Finite (Position.x (position current)))
             (Double.add (Double.Finite (Position.x (position prev)))
                         (Double.Finite (width prev)))))
       (Double.square
          (Double.sub (Double.Finite (Position.y (position current)))
                      (Double.Finite (Position.y (position prev)))))).

Definition MIN_NORMAL_SPACING : Double.t := Double.round 0.1.
Definition MAX_NORMAL_SPACING : Double.t := Double.Finite 20.

Definition isSpacingAbnormal (spacing : Double.t) : bool :=
  Double.ltb spacing MIN_NORMAL_SPACING
  || Double.gtb spacing MAX_NORMAL_SPACING.

Definition spacingIssue (metric : Metric) (spacing : Double.t) : Issue :=
  {| issueType := "spacing";
     issueContext := None;
     description := "Abnormal character spacing detected";
     severity := medium;
     detectedFonts := None;
     issuePosition := Some (position metric);
     details := Some (SpacingDetails spacing) |}.

(** One turn of the [metrics.forEach] callback; the state is the array of
    issues and [previousMetric] ([None] for [null]). *)
Definition spacingStep (state : list Issue * option Metric) (metric : Metric)
  : list Issue * option Metric :=
  let '(inconsistencies, previousMetric) := state in
  let inconsistencies :=
    match previousMetric with
    | Some prev =>
        let spacing := calculateSpacing prev metric in
        if isSpacingAbnormal spacing
        then inconsistencies ++ [spacingIssue metric spacing]
        else inconsistencies
    | None => inconsistencies
    end in
  (inconsistencies, Some metric).

Definition analyzeSpacingConsistency (metrics : list Metric) : list Issue :=
  fst (fold_left spacingStep metrics ([], None)).

(* ------------------------------------------------------------------ *)
(** ** Scoring engine *)

(** An element of [detectedFonts] in the report. *)
Record FontCount := mkFontCount { name : string; occurrences : nat }.

(** A value of the [inconsistencies] object: a bare array of issues, or the
    object [{ issues, detectedFonts }] that [analyzePDF] stores under
    [fontFamily]. *)
Inductive Entry :=
| IssueArray (issues : list Issue)
| IssueObject (issues : list Issue) (fonts : list FontCount).

Record Inconsistencies := mkInconsistencies {
  incFontFamily : Entry;
  incFontSize : list Issue;
  incSpacing : list Issue
}.

(** [Object.entries(inconsistencies)], in key order. *)
Definition entries (inconsistencies : Inconsistencies)
  : list (string * Entry) :=
  [ ("fontFamily", incFontFamily inconsistencies);
    ("fontSize", IssueArray (incFontSize inconsistencies));
    ("spacing", IssueArray (incSpacing inconsistencies)) ].

(** The [weights] object literal; [None] for a key it does not have. *)
Definition weights (type : string) : option Q :=
  if type =? "fontFamily" then Some 0.4%Q
  else if type =? "fontSize" then Some 0.3%Q
  else if type =? "spacing" then Some 0.3%Q
  else None.

Definition calculateSeverityScore (inconsistencies : Inconsistencies) : Q :=
  fold_left
    (fun score '(type, issues) =>
       let typeWeight :=
         match weights type with Some w => w | None => 0%Q end in
       let issuesList :=
         match issues with
         | IssueArray l => l
         | IssueObject l _ => l
         end in
       let issueScore :=
         fold_left
           (fun sum issue =>
              let severityMultiplier :=
                match severity issue with
                | high => 1
                | medium => 0.6
                | low => 0.3
                end in
              sum + severityMultiplier)%Q
           issuesList 0%Q in
       (score + issueScore * typeWeight)%Q)
    (entries inconsistencies) 0%Q.

Definition calculateConfidenceScore (totalIssues : nat) (severityScore : Q)
  : Q :=
  let baseConfidence := Qmin 1 (Qmax 0 (1 - severityScore / 10)) in
  let issuesPenalty :=
    Qmin 0.5 (inject_Z (Z.of_nat totalIssues) * 0.1) in
  Qmax 0 (baseConfidence - issuesPenalty).

Record Summary := mkSummary {
  totalIssues : nat;
  fontFamilyIssues : nat;
  fontSizeIssues : nat;
  spacingIssues : nat
}.

Record ReportDetails := mkReportDetails {
  detailsFontFamilyIssues : list Issue;
  detailsDetectedFonts : list FontCount;
  detailsFontSize : list Issue;
  detailsSpacing : list Issue
}.

Record Report := mkReport {
  timestamp : string;
  suspicious : bool;
  severityScore : Q;
  confidence : Q;
  summary : Summary;
  reportDetails : ReportDetails
}.

(** [generateReport]; [now] is [new Date().toISOString()].  [None] is the
    [TypeError] of [inconsistencies.fontFamily.issues.length] when
    [fontFamily] holds a bare array, whose [issues] is [undefined]. *)
Definition generateReport (now : string) (inconsistencies : Inconsistencies)
  : option Report :=
  let totalIssues :=
    fold_left
      (fun sum issues =>
         match issues with
         | IssueArray l => sum + List.length l
         | IssueObject l _ => sum + List.length l
         end)%nat
      (List.map snd (entries inconsistencies)) 0%nat in
  let severityScore := calculateSeverityScore inconsistencies in
  match incFontFamily inconsistencies with
  | IssueArray _ => None
  | IssueObject issues fonts =>
      Some {| timestamp := now;
              suspicious := (0 <? totalIssues)%nat;
              severityScore := severityScore;
              confidence := calculateConfidenceScore totalIssues severityScore;
              summary :=
                {| totalIssues := totalIssues;
                   fontFamilyIssues := List.length issues;
                   fontSizeIssues := List.length (incFontSize inconsistencies);
                   spacingIssues := List.length (incSpacing inconsistencies) |};
              reportDetails :=
                {| detailsFontFamilyIssues := issues;
                   detailsDetectedFonts := fonts;
                   detailsFontSize := incFontSize inconsistencies;
                   detailsSpacing := incSpacing inconsistencies |} |}
  end.

(* ------------------------------------------------------------------ *)
(** ** Exceptions and the logger *)

(** A JavaScript [Error]: [new Error(message)], or
    [new Error(message, { cause })] which carries the error it wraps. *)
Inductive JsError :=
| Error (message : string)
| ErrorWithCause (message : string) (cause : JsError).

(** A computation that may log through [logger.error] and may throw: the
    lines logged so far, and an exception or a value. *)
Definition Outcome (A : Type) : Type :=
  (list (string * JsError) * (JsError + A))%type.

Definition ret {A : Type} (a : A) : Outcome A := ([], inr a).

Definition throw {A : Type} (e : JsError) : Outcome A := ([], inl e).

Definition bind {A B : Type} (m : Outcome A) (k : A -> Outcome B)
  : Outcome B :=
  match m with
  | (l, inl e) => (l, inl e)
  | (l, inr a) => let '(l', r) := k a in (l ++ l', r)
  end.

(** [try { m } catch (error) { h error }] *)
Definition tryCatch {A : Type} (m : Outcome A) (h : JsError -> Outcome A)
  : Outcome A :=
  match m with
  | (l, inl e) => let '(l', r) := h e in (l ++ l', r)
  | (l, inr a) => (l, inr a)
  end.

(** [await] of a promise of an external collaborator. *)
Definition await {A : Type} (r : JsError + A) : Outcome A := ([], r).

(** Modelled from the spec: [logger.error] of [utils/logger.js], which is
    not among the sources.  The specification treats log output as an
    external effect of no concern to the core, so a call records its two
    arguments and returns. *)
Definition loggerError (msg : string) (e : JsError) : Outcome unit :=
  ([(msg, e)], inr tt).

(** A step of the source that raises a [TypeError] where the model has
    [None]. *)
Definition orTypeError {A : Type} (o : option A) : Outcome A :=
  match o with
  | Some a => ret a
  | None => throw (Error "TypeError")
  end.

Notation "x <- m ;; k" := (bind m (fun x => k))
  (at level 61, m at next level, right associativity).
Notation "m ;;; k" := (bind m (fun _ => k))
  (at level 61, right associativity).

(* ------------------------------------------------------------------ *)
(** ** Extraction of run metadata *)

Record Transform := mkTransform {
  t0 : Q; t1 : Q; t2 : Q; t3 : Q; t4 : Q; t5 : Q
}.

(** A text item of the parser's [getTextContent()]. *)
Module Item.
Record t := mk {
  str : string;
  transform : Transform;
  fontName : string;
  width : Q;
  height : Q
}.
End Item.

(** The object pushed for one text item. *)
Definition metricOfItem (item : Item.t) : Metric :=
  {| text := Item.str item;
     fontSize := t0 (Item.transform item);
     fontFamily := Item.fontName item;
     position := {| Position.x := t4 (Item.transform item);
                    Position.y := t5 (Item.transform item) |};
     width := Item.width item;
     height := Item.height item |}.

(* ------------------------------------------------------------------ *)
(** ** Overlay planner *)

Record Color := rgb { red : R; green : R; blue : R }.

(** A drawing call on page [page] of the loaded document. *)
Inductive DrawOp :=
| drawRectangle (page : nat) (x y w h : Q) (color : Color) (opacity : Q)
| drawText (page : nat) (label : string) (x y size : Q)
           (color : option Color).

(** [Math.floor(y / pages[0].getHeight())], the quotient being that of
    doubles.  An infinite or NaN quotient, as for a zero height, fails the
    range guard of the source; that is [None]. *)
Definition pageIndexOf (y firstPageHeight : Q) : option Z :=
  match Double.div (Double.Finite y) (Double.Finite firstPageHeight) with
  | Double.Finite quotient => Some (Qfloor quotient)
  | _ => None
  end.

(** The guard [pageIndex >= 0 && pageIndex < pages.length] followed by
    [pages[pageIndex]]: the index of the page and its height. *)
Definition pageFor (pages : list Q) (y : Q) : option (nat * Q) :=
  match pageIndexOf y (nth 0 pages 0%Q) with
  | None => None
  | Some pageIndex =>
      if ((0 <=? pageIndex) && (pageIndex <? Z.of_nat (List.length pages)))%Z
      then match nth_error pages (Z.to_nat pageIndex) with
           | Some pageHeight => Some (Z.to_nat pageIndex, pageHeight)
           | None => None
           end
      else None
  end.

(** [v || 10] on numbers. *)
Definition orDefault (v d : Q) : Q := if Qeq_bool v 0 then d else v.

(** The body of the loops over the affected runs. *)
Definition highlightMetric (pages : list Q) (color : Color) (metric : Metric)
  : list DrawOp :=
  match pageFor pages (Position.y (position metric)) with
  | Some (pageIndex, pageHeight) =>
      [drawRectangle pageIndex
         (Position.x (position metric))
         (pageHeight - Position.y (position metric))
         (orDefault (width metric) 10) (orDefault (height metric) 10)
         color 0.3]
  | None => []
  end.

(** The body of the loop over the spacing issues. *)
Definition highlightPosition (pages : list Q) (color : Color) (pos : Position.t)
  : list DrawOp :=
  match pageFor pages (Position.y pos) with
  | Some (pageIndex, pageHeight) =>
      [drawRectangle pageIndex (Position.x pos) (pageHeight - Position.y pos)
                     10 10 color 0.3]
  | None => []
  end.

Definition colors : list (string * Color) :=
  [ ("fontFamily", rgb 1 0 0);
    ("fontSize", rgb 1 (1 / 2) 0);
    ("spacing", rgb 1 1 0) ].

Definition colorOf (type : string) : Color :=
  match JsMap.get String.eqb type colors with
  | Some c => c
  | None => rgb 0 0 0
  end.

(** [array.entries()]: every element with its index. *)
Definition indexed {A : Type} (l : list A) : list (nat * A) :=
  combine (seq 0 (List.length l)) l.

Definition toUpperCase (c : ascii) : ascii :=
  let n := nat_of_ascii c in
  if ((97 <=? n) && (n <=? 122))%nat then ascii_of_nat (n - 32) else c.

(** [type.charAt(0).toUpperCase() + type.slice(1)] *)
Definition capitalize (s : string) : string :=
  match s with
  | EmptyString => EmptyString
  | String c r => String (toUpperCase c) r
  end.

Definition legendX : Q := 50.
Definition legendY : Q := 50.

Definition nQ (n : nat) : Q := inject_Z (Z.of_nat n).

(** The filter of the runs a font-family issue highlights. *)
Definition affectedByFamily (issue : Issue) (m : Metric) : bool :=
  match detectedFonts issue with
  | Some fonts =>
      existsb (String.eqb (fontFamily m)) fonts &&
      match issueContext issue with
      | Some c => Context_eqb (determineContext m) c
      | None => false
      end
  | None => false
  end.

(** The filter of the runs a font-size issue highlights. *)
Definition affectedBySize (issue : Issue) (m : Metric) : bool :=
  match issueContext issue with
  | Some c => Context_eqb (determineContext m) c
  | None => false
  end.

(** The rectangles of the three highlighting loops of
    [generateHighlightedPDF], in the order they are drawn. *)
Definition highlightedRects (pages : list Q) (metrics : list Metric)
           (inconsistencies : Inconsistencies) : list DrawOp :=
  (match incFontFamily inconsistencies with
   | IssueObject issues _ =>
       flat_map
         (fun issue =>
            flat_map (highlightMetric pages (colorOf "fontFamily"))
                     (filter (affectedByFamily issue) metrics))
         issues
   | IssueArray _ => []
   end)
  ++ flat_map
       (fun issue =>
          flat_map (highlightMetric pages (colorOf "fontSize"))
                   (filter (affectedBySize issue) metrics))
       (incFontSize inconsistencies)
  ++ flat_map
       (fun issue =>
          match issuePosition issue with
          | Some pos => highlightPosition pages (colorOf "spacing") pos
          | None => []
          end)
       (incSpacing inconsistencies).

(** The legend drawn on the first page. *)
Definition highlightedLegend : list DrawOp :=
  drawText 0 "Suspicious Areas Legend:" legendX (legendY + 60) 12 None
  :: flat_map
       (fun '(index, (type, color)) =>
          [ drawRectangle 0 legendX (legendY + nQ index * 20) 15 15 color 0.3;
            drawText 0 (capitalize type ++ " Issues")
                     (legendX + 25) (legendY + nQ index * 20 + 4) 10 None ])
       (indexed colors).

(** The drawing calls of [generateHighlightedPDF], in order, on a document
    with at least one page. *)
Definition highlightedPlan (pages : list Q) (metrics : list Metric)
           (inconsistencies : Inconsistencies) : list DrawOp :=
  highlightedRects pages metrics inconsistencies ++ highlightedLegend.

(** [[...new Set(metrics.map(m => m.fontFamily))]] *)
Definition uniqueFontsOf (metrics : list Metric) : list string :=
  fold_left (fun s f => JsSet.add f s) (List.map fontFamily metrics) [].

(** [metrics.filter(m => m.fontFamily === font).length] *)
Definition occurrencesOf (font : string) (metrics : list Metric) : nat :=
  List.length (filter (fun m => fontFamily m =? font) metrics).

Record FontColor := mkFontColor { color : Color; count : nat }.

Definition hueColor (index total : nat) : Color :=
  let hue := (INR index * 360 / INR total / 360)%R in
  rgb (sin (hue * PI * 2) * (1 / 2) + 1 / 2)
      (sin ((hue + 1 / 3) * PI * 2) * (1 / 2) + 1 / 2)
      (sin ((hue + 2 / 3) * PI * 2) * (1 / 2) + 1 / 2).

(** The [fontColors] object, filled family by family in discovery order. *)
Definition fontColorsOf (metrics : list Metric)
  : list (string * FontColor) :=
  let uniqueFonts := uniqueFontsOf metrics in
  fold_left
    (fun fontColors '(index, font) =>
       JsObject.set font
         {| color := hueColor index (List.length uniqueFonts);
            count := occurrencesOf font metrics |}
         fontColors)
    (indexed uniqueFonts) [].

(** The [for (const metric of metrics)] loop of [generateFontTypePDF];
    [None] is the [TypeError] of reading [.color] of a family that
    [fontColors] holds neither as a property nor as its prototype. *)
Fixpoint fontTypeLoop (pages : list Q) (fontColors : list (string * FontColor))
         (metrics : list Metric) (drawn : list DrawOp)
  : option (list DrawOp) :=
  match metrics with
  | [] => Some drawn
  | metric :: rest =>
      match pageFor pages (Position.y (position metric)) with
      | Some (pageIndex, pageHeight) =>
          match JsMap.get String.eqb (fontFamily metric) fontColors with
          | Some entry =>
              fontTypeLoop pages fontColors rest
                (drawn ++
                 [drawRectangle pageIndex
                    (Position.x (position metric))
                    (pageHeight - Position.y (position metric))
                    (orDefault (width metric) 10)
                    (orDefault (height metric) 10)
                    (color entry) 0.3])
          | None => None
          end
      | None => fontTypeLoop pages fontColors rest drawn
      end
  end.

Definition fontTypeLegend (fontColors : list (string * FontColor))
  : list DrawOp :=
  drawText 0 "Font Types Legend:" legendX
           (legendY + nQ (List.length (JsObject.entries fontColors)) * 20
            + 40) 12
           (Some (rgb 0 0 0))
  :: flat_map
       (fun '(index, (fontName, entry)) =>
          [ drawRectangle 0 legendX (legendY + nQ index * 20) 15 15
                          (color entry) 0.3;
            drawText 0
              (fontName ++ " (" ++ showNat (count entry) ++ " occurrences)")
              (legendX + 25) (legendY + nQ index * 20 + 4) 10
              (Some (rgb 0 0 0)) ])
       (indexed (JsObject.entries fontColors)).

(** The drawing calls of [generateFontTypePDF], in order, on a document with
    at least one page. *)
Definition fontTypePlan (pages : list Q) (metrics : list Metric)
  : option (list DrawOp) :=
  let fontColors := fontColorsOf metrics in
  match fontTypeLoop pages fontColors metrics [] with
  | Some drawn => Some (drawn ++ fontTypeLegend fontColors)
  | None => None
  end.

(* ------------------------------------------------------------------ *)
(** ** The pipeline and its external collaborators *)

Definition Bytes := list Byte.byte.

(** What [analyzePDF] returns: the report spread together with the two
    encoded documents. *)
Record Analysis := mkAnalysis {
  report : Report;
  highlightedPdf : string;
  fontTypePdf : string
}.

Section Pipeline.

(** [pdfjsLib.getDocument] and [getTextContent]: the text items of every
    page, or the rejection of the parser. *)
Variable parse : Bytes -> JsError + list (list Item.t).

(** [PDFDocument.load] and [getPages]: the height of every page. *)
Variable load : Bytes -> JsError + list Q.

(** The drawing calls applied to the loaded document, then [save]: the
    bytes written, or the rejection of the writer. *)
Variable write : Bytes -> list DrawOp -> JsError + Bytes.

(** [Buffer.from(bytes).toString('base64')] *)
Variable toBase64 : Bytes -> string.

(** [new Date().toISOString()] *)
Variable now : string.

Definition extractFontMetrics (pdfBuffer : Bytes) : Outcome (list Metric) :=
  pages <- await (parse pdfBuffer) ;;
  ret (flat_map (fun items => List.map metricOfItem items) pages).

(** With no page at all, [pages[0]] is [undefined] and the legend (or an
    earlier [pages[0].getHeight()]) raises a [TypeError] inside the [try]. *)
Definition generateHighlightedPDF (originalPdfBuffer : Bytes)
           (metrics : list Metric) (inconsistencies : Inconsistencies)
  : Outcome Bytes :=
  tryCatch
    (pages <- await (load originalPdfBuffer) ;;
     match pages with
     | [] => throw (Error "TypeError")
     | _ :: _ =>
         await (write originalPdfBuffer
                      (highlightedPlan pages metrics inconsistencies))
     end)
    (fun error =>
       loggerError "Error generating highlighted PDF:" error ;;;
       throw (Error "Failed to generate highlighted PDF")).

Definition generateFontTypePDF (originalPdfBuffer : Bytes)
           (metrics : list Metric) : Outcome string :=
  tryCatch
    (pages <- await (load originalPdfBuffer) ;;
     match pages with
     | [] => throw (Error "TypeError")
     | _ :: _ =>
         plan <- orTypeError (fontTypePlan pages metrics) ;;
         saved <- await (write originalPdfBuffer plan) ;;
         ret (toBase64 saved)
     end)
    (fun error =>
       loggerError "Error generating font type PDF:" error ;;;
       throw (Error "Failed to generate font type PDF")).

(** The [inconsistencies] object [analyzePDF] hands to the report and to
    the overlay: the three detector results, [fontFamily] wrapped together
    with the inventory of families. *)
Definition inconsistenciesOf (fontMetrics : list Metric)
  : option Inconsistencies :=
  match analyzeFontSizeConsistency fontMetrics with
  | None => None
  | Some sizeIssues =>
      Some {| incFontFamily :=
                IssueObject (analyzeFontFamilyConsistency fontMetrics)
                  (List.map
                     (fun font =>
                        {| name := font;
                           occurrences := occurrencesOf font fontMetrics |})
                     (uniqueFontsOf fontMetrics));
              incFontSize := sizeIssues;
              incSpacing := analyzeSpacingConsistency fontMetrics |}
  end.

Definition analyzePDF (pdfBuffer : Bytes) : Outcome Analysis :=
  tryCatch
    (let copyPdf := pdfBuffer in
     fontMetrics <- extractFontMetrics pdfBuffer ;;
     inconsistencies <- orTypeError (inconsistenciesOf fontMetrics) ;;
     report <- orTypeError (generateReport now inconsistencies) ;;
     highlightedPdf <-
       generateHighlightedPDF copyPdf fontMetrics inconsistencies ;;
     fontTypePdf <- generateFontTypePDF copyPdf fontMetrics ;;
     ret {| report := report;
            highlightedPdf := toBase64 highlightedPdf;
            fontTypePdf := fontTypePdf |})
    (fun error =>
       loggerError "Error analyzing PDF:" error ;;;
       throw (Error "Failed to analyze PDF document")).

End Pipeline.

(* ------------------------------------------------------------------ *)
(** ** Notions the specification is stated with *)

(** The runs of a context, in input order. *)
Definition runsIn (c : Context) (metrics : list Metric) : list Metric :=
  filter (fun m => Context_eqb (determineContext m) c) metrics.

(** The issues reported for a context, in output order. *)
Definition issuesFor (c : Context) (issues : list Issue) : list Issue :=
  filter
    (fun i =>
       match issueContext i with
       | Some c' => Context_eqb c' c
       | None => false
       end)
    issues.

Definition Qsum (l : list Q) : Q := fold_right Qplus 0%Q l.



Definition severityMultiplier (s : Severity) : Q :=
  match s with
  | high => 1
  | medium => 0.6
  | low => 0.3
  end.

(** The sum over the issues of a type of their severity multipliers. *)
Definition multiplierSum (issues : list Issue) : Q :=
  Qsum (List.map (fun i => severityMultiplier (severity i)) issues).

Definition clamp (v lo hi : Q) : Q :=
  if Qltb v lo then lo else if Qgtb v hi then hi else v.

(** One turn of the grouping pass shared by the font-family and font-size
    detectors: the group of the run's context is created when missing, then
    extended in place with [val metric]. *)
Definition groupStep {V A : Type} (val : Metric -> A) (add : A -> V -> V)
           (empty : V) (groups : list (Context * V)) (metric : Metric)
  : list (Context * V) :=
  let context := determineContext metric in
  let groups :=
    if JsMap.has Context_eqb context groups then groups
    else JsMap.set Context_eqb context empty groups in
  JsMap.alter Context_eqb (add (val metric)) context groups.

Definition orEmpty {V : Type} (empty : V) (o : option V) : V :=
  match o with Some v => v | None => empty end.

(** What the loop of the font-family detector pushes for one group. *)
Definition familyEmit (context : Context) (fonts : list string) : list Issue :=
  if (2 <? List.length fonts)%nat then [familyIssue context fonts] else [].

(** The mean the font-size detector computes: the sizes added from left to
    right as doubles, the sum divided by their number. *)
Definition doubleMean (sizes : list Q) : Double.t :=
  match reduce1 Double.add sizes with
  | Some total => Double.div total (Double.Finite (lengthQ sizes))
  | None => Double.NaN
  end.

(** The variance the font-size detector computes: the squared deviations
    from the computed mean added from left to right as doubles, starting
    from 0, the sum divided by the number of sizes. *)
Definition doubleVariance (sizes : list Q) : Double.t :=
  Double.div
    (fold_left
       (fun a b =>
          Double.add a
            (Double.square (Double.sub (Double.Finite b) (doubleMean sizes))))
       sizes (Double.Finite 0))
    (Double.Finite (lengthQ sizes)).

(** What the loop of the font-size detector pushes for one group that
    holds at least one size. *)
Definition sizeEmit (context : Context) (sizes : list Q) : list Issue :=
  match sizes with
  | [] => []
  | _ :: _ =>
      if Double.gtb (doubleVariance sizes) (Double.Finite 2)
      then [sizeIssue context (doubleMean sizes) (doubleVariance sizes)]
      else []
  end.

(** The number is a double: rounding leaves it as it is. *)
Definition isDouble (x : Q) : Prop :=
  Double.round x = Double.Finite (Qred x).

(** The families a context has accumulated once the grouping pass is over. *)
Definition fontsOf (c : Context) (metrics : list Metric) : list string :=
  fold_left (fun fonts m => JsSet.add (fontFamily m) fonts)
            (runsIn c metrics) [].

(** What the spacing detector pushes for a run and its predecessor. *)
Definition pairEmit (pair : Metric * Metric) : list Issue :=
  let '(prev, current) := pair in
  if isSpacingAbnormal (calculateSpacing prev current)
  then [spacingIssue current (calculateSpacing prev current)]
  else [].

(** The square of the Euclidean distance of the specification, from the
    right edge of [prev] to the origin of [current], on exact rationals. *)
Definition spacingSquared (prev current : Metric) : Q :=
  ((Position.x (position current) - (Position.x (position prev) + width prev))
   * (Position.x (position current) - (Position.x (position prev) + width prev))
   + (Position.y (position current) - Position.y (position prev))
     * (Position.y (position current) - Position.y (position prev)))%Q.

(** Every run paired with its immediate predecessor, in input order. *)
Definition adjacentPairs (metrics : list Metric) : list (Metric * Metric) :=
  combine metrics (tl metrics).

(** The issues of an entry of [inconsistencies], whichever its shape. *)
Definition issuesOf (e : Entry) : list Issue :=
  match e with
  | IssueArray l => l
  | IssueObject l _ => l
  end.

(** An error carries [origin] when it is [origin] itself or has it
    somewhere along its chain of causes. *)
Fixpoint carriesCause (origin e : JsError) : Prop :=
  e = origin \/
  match e with
  | Error _ => False
  | ErrorWithCause _ c => carriesCause origin c
  end.

(** The exception a computation ends with, if any. *)
Definition thrown {A : Type} (o : Outcome A) : option JsError :=
  match snd o with
  | inl e => Some e
  | inr _ => None
  end.

(** The y coordinate of a drawn rectangle. *)
Definition rectY (op : DrawOp) : option Q :=
  match op with
  | drawRectangle _ _ y _ _ _ _ => Some y
  | drawText _ _ _ _ _ _ => None
  end.

(** The page index computed for [y] fails the range guard: it is negative,
    at least the number of pages, or not a finite number. *)
Definition pageIndexOutOfRange (pages : list Q) (y : Q) : Prop :=
  match pageIndexOf y (nth 0 pages 0%Q) with
  | Some pageIndex =>
      (pageIndex < 0 \/ Z.of_nat (List.length pages) <= pageIndex)%Z
  | None => True
  end.

(** [op] is a rectangle drawn for the position [pos]: on some page of the
    document, at [pos]'s x and at the height of that page minus [pos]'s y. *)
Definition placedFor (pages : list Q) (pos : Position.t) (op : DrawOp) : Prop :=
  exists (pageIndex : nat) (pageHeight w h : Q) (c : Color) (o : Q),
    nth_error pages pageIndex = Some pageHeight /\
    pageFor pages (Position.y pos) = Some (pageIndex, pageHeight) /\
    op = drawRectangle pageIndex (Position.x pos) (pageHeight - Position.y pos)
                       w h c o.

(** Two runs of one page, the second with the larger y. *)
Definition lowRun : Metric :=
  {| text := "a"; fontSize := 12; fontFamily := "Arial";
     position := {| Position.x := 0; Position.y := 100 |};
     width := 10; height := 10 |}.

Definition highRun : Metric :=
  {| text := "b"; fontSize := 12; fontFamily := "Arial";
     position := {| Position.x := 0; Position.y := 200 |};
     width := 10; height := 10 |}.

(** Collaborators for a document of one page, 800 high, without text,
    whose writer rejects every plan. *)
Definition rejection : JsError := Error "malformed geometry".

Definition noText : Bytes -> JsError + list (list Item.t) :=
  fun _ => inr [[]].

Definition onePage : Bytes -> JsError + list Q := fun _ => inr [800%Q].

Definition rejectingWriter : Bytes -> list DrawOp -> JsError + Bytes :=
  fun _ _ => inl rejection.

Definition noEncoding : Bytes -> string := fun _ => "".

Definition noIssues : Inconsistencies :=
  {| incFontFamily := IssueObject [] []; incFontSize := []; incSpacing := [] |}.

(** A run of the repository's tests: [Test] at [(x, 0)], 10 by 10. *)
Definition mockMetric (family : string) (size x : Q) : Metric :=
  {| text := "Test"; fontSize := size; fontFamily := family;
     position := {| Position.x := x; Position.y := 0 |};
     width := 10; height := 10 |}.

(** A run below the only page of a document 800 high. *)
Definition farRun : Metric :=
  {| text := "c"; fontSize := 12; fontFamily := "Arial";
     position := {| Position.x := 0; Position.y := 900 |};
     width := 10; height := 10 |}.

(** The runs of the repository's font-family test. *)
Definition familyFixture : list Metric :=
  [ mockMetric "Arial" 12 0; mockMetric "Times" 12 20;
    mockMetric "Helvetica" 12 40 ].

(** The runs of the repository's spacing test. *)
Definition spacingFixture : list Metric :=
  [ mockMetric "Arial" 12 0; mockMetric "Arial" 12 50;
    mockMetric "Arial" 12 60 ].



(** Five body runs of sizes 12.4, 8.8, 10.2, 9.0 and 8.6. *)
Definition orderedSizes : list Metric :=
  [ mockMetric "Arial" (literal 12.4) 0; mockMetric "Arial" (literal 8.8) 20;
    mockMetric "Arial" (literal 10.2) 40; mockMetric "Arial" (literal 9) 60;
    mockMetric "Arial" (literal 8.6) 80 ].

(** A run at 10.1, 5.2 wide, followed on the same line by a run at 15.4. *)
Definition tightPrev : Metric :=
  {| text := "a"; fontSize := 12; fontFamily := "Arial";
     position := {| Position.x := literal 10.1; Position.y := 0 |};
     width := literal 5.2; height := 10 |}.

Definition tightNext : Metric :=
  {| text := "b"; fontSize := 12; fontFamily := "Arial";
     position := {| Position.x := literal 15.4; Position.y := 0 |};
     width := 10; height := 10 |}.

(** The fixture of the repository's report test: three bare arrays. *)
Definition mockInconsistencies : Inconsistencies :=
  {| incFontFamily :=
       IssueArray [ {| issueType := "fontFamily"; issueContext := None;
                       description := "Test"; severity := high;
                       detectedFonts := None; issuePosition := None;
                       details := None |} ];
     incFontSize :=
       [ {| issueType := "fontSize"; issueContext := None;
            description := "Test"; severity := medium;
            detectedFonts := None; issuePosition := None;
            details := None |} ];
     incSpacing :=
       [ {| issueType := "spacing"; issueContext := None;
            description := "Test"; severity := low;
            detectedFonts := None; issuePosition := None;
            details := None |} ] |}.

(* ------------------------------------------------------------------ *)
(** ** The request handler *)

(** [req.file] as the upload middleware leaves it. *)
Record UploadedFile := mkUploadedFile { mimetype : string; buffer : Bytes }.

(** The JSON body of a response: [{ error }], or the analysis with the two
    encoded documents. *)
Inductive Body :=
| ErrorBody (error : string)
| AnalysisBody (analysis : Report) (highlighted fontType : string).

(** [res.status(status).json(body)]; [res.json] alone answers 200. *)
Record Response := mkResponse { status : nat; json : Body }.

(** [s.includes(sub)] *)
Definition includes (s sub : string) : bool :=
  match String.index 0 sub s with
  | Some _ => true
  | None => false
  end.

Section Handler.

Variable parse : Bytes -> JsError + list (list Item.t).
Variable load : Bytes -> JsError + list Q.
Variable write : Bytes -> list DrawOp -> JsError + Bytes.
Variable toBase64 : Bytes -> string.
Variable now : string.

(** [fs.writeFileSync(path, data, "base64")] *)
Variable writeFileSync : string -> string -> JsError + unit.

(** The callback of [app.post('/analyze', ...)] in [index.js]: what is
    logged, and the response sent. *)
Definition analyzeRoute (file : option UploadedFile)
  : list (string * JsError) * Response :=
  match file with
  | None =>
      ([], {| status := 400; json := ErrorBody "No PDF file provided" |})
  | Some f =>
      if negb (includes (mimetype f) "pdf")
      then ([], {| status := 400; json := ErrorBody "File must be a PDF" |})
      else
        match analyzePDF parse load write toBase64 now (buffer f) with
        | (l, inr result) =>
            (l, {| status := 200;
                   json := AnalysisBody (report result)
                                        (highlightedPdf result)
                                        (fontTypePdf result) |})
        | (l, inl error) =>
            (l ++ [("Error processing request:", error)],
             {| status := 500; json := ErrorBody "Failed to analyze PDF" |})
        end
  end.

(** [path.join(OUTPUT_DIR, name)] with [OUTPUT_DIR = "./output"], on a
    POSIX path. *)
Definition outputFilePath : string := "output/pdfHighlighted.pdf".
Definition outputFilePathFont : string := "output/pdfHighlightedFont.pdf".

(** The callback of the variant that also stores the two documents: what is
    logged, the files written in order, and the response sent. *)
Definition analyzeRouteStoring (file : option UploadedFile)
  : list (string * JsError) * list (string * string) * Response :=
  match file with
  | None =>
      ([], [], {| status := 400; json := ErrorBody "No PDF file provided" |})
  | Some f =>
      if negb (includes (mimetype f) "pdf")
      then ([], [], {| status := 400; json := ErrorBody "File must be a PDF" |})
      else
        let failed l written error :=
          (l ++ [("Error processing request:", error)], written,
           {| status := 500; json := ErrorBody "Failed to analyze PDF" |}) in
        match analyzePDF parse load write toBase64 now (buffer f) with
        | (l, inr result) =>
            match writeFileSync outputFilePath (highlightedPdf result) with
            | inl error => failed l [] error
            | inr _ =>
                let first := (outputFilePath, highlightedPdf result) in
                match writeFileSync outputFilePathFont (fontTypePdf result) with
                | inl error => failed l [first] error
                | inr _ =>
                    (l, [first; (outputFilePathFont, fontTypePdf result)],
                     {| status := 200;
                        json := AnalysisBody (report result)
                                             (highlightedPdf result)
                                             (fontTypePdf result) |})
                end
            end
        | (l, inl error) => failed l [] error
        end
  end.

End Handler.

(* ------------------------------------------------------------------ *)
(** ** Further notions *)

(** The page a drawing call is made on. *)
Definition pageOf (op : DrawOp) : nat :=
  match op with
  | drawRectangle page _ _ _ _ _ _ => page
  | drawText page _ _ _ _ _ => page
  end.

(** The run passes the range guard of the overlay loops. *)
Definition onDocument (pages : list Q) (m : Metric) : bool :=
  match pageFor pages (Position.y (position m)) with
  | Some _ => true
  | None => false
  end.

(** The inventory of families [analyzePDF] stores under
    [fontFamily.detectedFonts]. *)
Definition inventoryOf (metrics : list Metric) : list FontCount :=
  List.map
    (fun font =>
       {| name := font; occurrences := occurrencesOf font metrics |})
    (uniqueFontsOf metrics).

(** The entry [fontColors] receives for the family met at rank [index]
    among [total] families. *)
Definition fontColorEntry (metrics : list Metric) (total : nat)
           (p : nat * string) : string * FontColor :=
  let '(index, font) := p in
  (font, {| color := hueColor index total;
            count := occurrencesOf font metrics |}).

(* ================================================================== *)
(** * Properties *)

(** ** Contexts *)

Lemma Context_eqb_eq (a b : Context) : Context_eqb a b = true <-> a = b.
Proof. destruct a, b; simpl; split; intro H; congruence. Qed.

Lemma Context_eqb_refl (a : Context) : Context_eqb a a = true.
Proof. now destruct a. Qed.

Lemma Context_eqb_neq (a b : Context) : Context_eqb a b = false <-> a <> b.
Proof. destruct a, b; simpl; split; intro H; congruence. Qed.

Lemma Context_eqb_sym (a b : Context) : Context_eqb a b = Context_eqb b a.
Proof. now destruct a, b. Qed.

Lemma Context_all (c : Context) : In c [header; subheader; body].
Proof. destruct c; simpl; auto. Qed.

Lemma NoDup_contexts_length (l : list Context) :
  NoDup l -> (List.length l <= 3)%nat.
Proof.
  intro H.
  change 3%nat with (List.length [header; subheader; body]).
  apply NoDup_incl_length; [assumption|].
  intros c _. apply Context_all.
Qed.

Lemma determineContext_fontSize (m1 m2 : Metric) :
  (fontSize m1 == fontSize m2)%Q -> determineContext m1 = determineContext m2.
Proof.
  intro H. unfold determineContext, Qgtb.
  assert (E : forall k, Qle_bool (fontSize m1) k = Qle_bool (fontSize m2) k).
  { intro k. destruct (Qle_bool (fontSize m2) k) eqn:E2.
    - apply Qle_bool_iff. rewrite H. now apply Qle_bool_iff.
    - destruct (Qle_bool (fontSize m1) k) eqn:E1; [|reflexivity].
      apply Qle_bool_iff in E1. rewrite H in E1.
      apply Qle_bool_iff in E1. congruence. }
  now rewrite !E.
Qed.

(** ** Insertion-ordered maps keyed by context *)

Section ContextMap.
Variable V : Type.
Implicit Types (g : list (Context * V)) (c k : Context).

Local Abbreviation has := (JsMap.has Context_eqb).
Local Abbreviation get := (JsMap.get Context_eqb).
Local Abbreviation put := (JsMap.set Context_eqb).
Local Abbreviation alter := (JsMap.alter Context_eqb).

Lemma has_get g c :
  has c g = match get c g with Some _ => true | None => false end.
Proof.
  induction g as [|[k v] g IH]; simpl; [reflexivity|].
  destruct (Context_eqb k c); auto.
Qed.

Lemma get_In_keys g c : get c g <> None <-> In c (List.map fst g).
Proof.
  induction g as [|[k v] g IH]; simpl.
  - split; [congruence | tauto].
  - destruct (Context_eqb k c) eqn:E.
    + apply Context_eqb_eq in E. split; [auto | congruence].
    + apply Context_eqb_neq in E. rewrite IH.
      split; [auto | intros [?|?]; [contradiction | assumption]].
Qed.

Lemma get_set g c v k :
  get k (put c v g) = if Context_eqb c k then Some v else get k g.
Proof.
  induction g as [|[k' v'] g IH]; simpl.
  - reflexivity.
  - destruct (Context_eqb k' c) eqn:E; simpl.
    + apply Context_eqb_eq in E; subst k'.
      destruct (Context_eqb c k); reflexivity.
    + rewrite IH. destruct (Context_eqb k' k) eqn:E'; [|reflexivity].
      apply Context_eqb_eq in E'; subst k'.
      now rewrite Context_eqb_sym, E.
Qed.

Lemma get_alter g c f k :
  get k (alter f c g) =
  if Context_eqb c k then option_map f (get k g) else get k g.
Proof.
  induction g as [|[k' v'] g IH]; simpl.
  - destruct (Context_eqb c k); reflexivity.
  - destruct (Context_eqb k' c) eqn:E; simpl.
    + apply Context_eqb_eq in E; subst k'.
      destruct (Context_eqb c k); reflexivity.
    + rewrite IH. destruct (Context_eqb k' k) eqn:E'; [|reflexivity].
      apply Context_eqb_eq in E'; subst k'.
      now rewrite Context_eqb_sym, E.
Qed.

Lemma keys_alter g c f : List.map fst (alter f c g) = List.map fst g.
Proof.
  induction g as [|[k v] g IH]; simpl; [reflexivity|].
  destruct (Context_eqb k c); simpl; congruence.
Qed.

Lemma keys_set g c v :
  List.map fst (put c v g) =
  if has c g then List.map fst g else List.map fst g ++ [c].
Proof.
  induction g as [|[k v'] g IH]; simpl; [reflexivity|].
  destruct (Context_eqb k c); simpl; [reflexivity|].
  rewrite IH. now destruct (has c g).
Qed.

Lemma get_of_In g c v :
  NoDup (List.map fst g) -> In (c, v) g -> get c g = Some v.
Proof.
  induction g as [|[k v'] g IH]; simpl; [tauto|].
  intros ND [E|HIn].
  - inversion E; subst. now rewrite Context_eqb_refl.
  - inversion ND as [|? ? Hk ND']; subst.
    destruct (Context_eqb k c) eqn:E.
    + apply Context_eqb_eq in E; subst k. exfalso. apply Hk.
      now apply (in_map fst) in HIn.
    + now apply IH.
Qed.

(** *** Grouping a run list by context *)

Variable A : Type.
Variable val : Metric -> A.
Variable add : A -> V -> V.
Variable empty : V.

Local Abbreviation groupStep := (groupStep val add empty).
Local Abbreviation orEmpty := (orEmpty empty).

Lemma get_groupStep g m c :
  get c (groupStep g m) =
  if Context_eqb (determineContext m) c
  then Some (add (val m) (orEmpty (get c g)))
  else get c g.
Proof.
  unfold groupStep. cbv zeta. rewrite get_alter.
  destruct (Context_eqb (determineContext m) c) eqn:E.
  - apply Context_eqb_eq in E. rewrite E.
    rewrite has_get. destruct (get c g) eqn:G; simpl.
    + now rewrite G.
    + now rewrite get_set, Context_eqb_refl.
  - destruct (has (determineContext m) g); [reflexivity|].
    now rewrite get_set, E.
Qed.

Lemma keys_groupStep g m :
  NoDup (List.map fst g) -> NoDup (List.map fst (groupStep g m)).
Proof.
  intro ND. unfold groupStep. cbv zeta. rewrite keys_alter.
  destruct (has (determineContext m) g) eqn:E; [assumption|].
  rewrite keys_set, E.
  apply NoDup_app; [assumption | repeat constructor; simpl; tauto |].
  intros c Hc [<-|[]].
  apply get_In_keys in Hc. rewrite has_get in E.
  destruct (get (determineContext m) g); congruence.
Qed.

Lemma keys_groups ms g :
  NoDup (List.map fst g) -> NoDup (List.map fst (fold_left groupStep ms g)).
Proof.
  revert g. induction ms as [|m ms IH]; simpl; intros g ND; [assumption|].
  apply IH. now apply keys_groupStep.
Qed.

Lemma get_groups ms g c :
  get c (fold_left groupStep ms g) =
  match runsIn c ms with
  | [] => get c g
  | l => Some (fold_left (fun v m => add (val m) v) l (orEmpty (get c g)))
  end.
Proof.
  revert g. induction ms as [|m ms IH]; simpl; intro g; [reflexivity|].
  rewrite IH, get_groupStep.
  destruct (Context_eqb (determineContext m) c) eqn:E; simpl.
  - now destruct (runsIn c ms).
  - reflexivity.
Qed.

End ContextMap.

(** ** Loops that push onto an array *)

Lemma fold_left_push {A B : Type} (emit : A -> list B) (l : list A) (acc : list B) :
  fold_left (fun acc a => acc ++ emit a) l acc = acc ++ flat_map emit l.
Proof.
  revert acc. induction l as [|a l IH]; simpl; intro acc.
  - now rewrite app_nil_r.
  - now rewrite IH, app_assoc.
Qed.

Lemma fold_left_pointwise {A B : Type} (f g : B -> A -> B) (l : list A) (b : B) :
  (forall b a, f b a = g b a) -> fold_left f l b = fold_left g l b.
Proof.
  intro H. revert b. induction l as [|a l IH]; simpl; intro b; [reflexivity|].
  now rewrite H, IH.
Qed.

Lemma issuesFor_app (c : Context) (l1 l2 : list Issue) :
  issuesFor c (l1 ++ l2) = issuesFor c l1 ++ issuesFor c l2.
Proof. apply filter_app. Qed.

Lemma issuesFor_same (c : Context) (l : list Issue) :
  (forall i, In i l -> issueContext i = Some c) -> issuesFor c l = l.
Proof.
  induction l as [|i l IH]; simpl; intro H; [reflexivity|].
  rewrite (H i (or_introl eq_refl)), Context_eqb_refl.
  f_equal. apply IH. intros j Hj. apply H. now right.
Qed.

Lemma issuesFor_other (c k : Context) (l : list Issue) :
  k <> c -> (forall i, In i l -> issueContext i = Some k) -> issuesFor c l = [].
Proof.
  intro Hk. induction l as [|i l IH]; simpl; intro H; [reflexivity|].
  rewrite (H i (or_introl eq_refl)).
  apply Context_eqb_neq in Hk. rewrite Hk.
  apply IH. intros j Hj. apply H. now right.
Qed.

Section Emit.
Variable V : Type.
Variable emit : Context -> V -> list Issue.
Hypothesis emit_context :
  forall k v i, In i (emit k v) -> issueContext i = Some k.

Lemma issuesFor_groups (g : list (Context * V)) (c : Context) :
  NoDup (List.map fst g) ->
  issuesFor c (flat_map (fun '(k, v) => emit k v) g) =
  match JsMap.get Context_eqb c g with
  | Some v => emit c v
  | None => []
  end.
Proof.
  induction g as [|[k v] g IH]; simpl; intro ND; [reflexivity|].
  inversion ND as [|? ? Hk ND']; subst.
  rewrite issuesFor_app, (IH ND').
  destruct (Context_eqb k c) eqn:E.
  - apply Context_eqb_eq in E; subst k.
    rewrite (issuesFor_same c (emit c v)) by (intros; eapply emit_context; eauto).
    destruct (JsMap.get Context_eqb c g) eqn:G.
    + exfalso. apply Hk. apply get_In_keys. congruence.
    + apply app_nil_r.
  - apply Context_eqb_neq in E.
    rewrite (issuesFor_other c k (emit k v) E)
      by (intros; eapply emit_context; eauto).
    reflexivity.
Qed.

Lemma emitted_length (g : list (Context * V)) :
  (forall k v, (List.length (emit k v) <= 1)%nat) ->
  NoDup (List.map fst g) ->
  (List.length (flat_map (fun '(k, v) => emit k v) g) <= 3)%nat.
Proof.
  intros H1 ND.
  apply Nat.le_trans with (List.length g).
  - clear ND. induction g as [|[k v] g IH]; simpl; [lia|].
    rewrite length_app. specialize (H1 k v). lia.
  - rewrite <- (length_map fst). now apply NoDup_contexts_length.
Qed.

End Emit.

(** ** Sets of families *)

Lemma JsSet_has_In (x : string) (s : list string) :
  JsSet.has x s = true <-> In x s.
Proof.
  unfold JsSet.has. rewrite existsb_exists. split.
  - intros [y [Hy E]]. apply String.eqb_eq in E. now subst.
  - intro H. exists x. split; [assumption | apply String.eqb_refl].
Qed.

Lemma JsSet_add_NoDup (x : string) (s : list string) :
  NoDup s -> NoDup (JsSet.add x s).
Proof.
  intro ND. unfold JsSet.add. destruct (JsSet.has x s) eqn:E; [assumption|].
  apply NoDup_app; [assumption | repeat constructor; simpl; tauto |].
  intros y Hy [<-|[]]. apply JsSet_has_In in Hy. congruence.
Qed.

Lemma JsSet_add_In (x y : string) (s : list string) :
  In y (JsSet.add x s) <-> y = x \/ In y s.
Proof.
  unfold JsSet.add. destruct (JsSet.has x s) eqn:E.
  - apply JsSet_has_In in E. split; [auto | intros [->|?]; assumption].
  - rewrite in_app_iff. simpl. intuition congruence.
Qed.

Lemma families_fold (l : list Metric) (s : list string) :
  NoDup s ->
  NoDup (fold_left (fun fonts m => JsSet.add (fontFamily m) fonts) l s) /\
  forall f,
    In f (fold_left (fun fonts m => JsSet.add (fontFamily m) fonts) l s) <->
    In f s \/ exists m, In m l /\ fontFamily m = f.
Proof.
  revert s. induction l as [|m l IH]; simpl; intros s ND.
  - split; [assumption|]. intro f. split; [auto | intros [?|[? [[] _]]]; assumption].
  - destruct (IH _ (JsSet_add_NoDup (fontFamily m) s ND)) as [ND' HIn].
    split; [assumption|]. intro f. rewrite HIn, JsSet_add_In. split.
    + intros [[->|H]|[m' [Hm' E]]]; eauto.
    + intros [H|[m' [[->|Hm'] E]]]; eauto.
Qed.

Lemma runsIn_In (c : Context) (ms : list Metric) (m : Metric) :
  In m (runsIn c ms) <-> In m ms /\ determineContext m = c.
Proof. unfold runsIn. rewrite filter_In, Context_eqb_eq. tauto. Qed.

Lemma fontsOf_spec (c : Context) (ms : list Metric) :
  NoDup (fontsOf c ms) /\
  forall f, In f (fontsOf c ms) <->
            exists m, In m ms /\ determineContext m = c /\ fontFamily m = f.
Proof.
  destruct (families_fold (runsIn c ms) [] (NoDup_nil _)) as [ND HIn].
  split; [exact ND|]. intro f. unfold fontsOf. rewrite HIn. split.
  - intros [[]|[m [Hm E]]]. apply runsIn_In in Hm. exists m. tauto.
  - intros [m [Hm [Hc E]]]. right. exists m. rewrite runsIn_In. tauto.
Qed.

(** ** The font-family detector, group by group *)

Lemma fontFamilyGroups_fold (ms : list Metric) :
  fontFamilyGroups ms = fold_left (groupStep fontFamily JsSet.add []) ms [].
Proof. reflexivity. Qed.

Lemma analyzeFontFamilyConsistency_flat_map (ms : list Metric) :
  analyzeFontFamilyConsistency ms =
  flat_map (fun '(k, v) => familyEmit k v) (fontFamilyGroups ms).
Proof.
  unfold analyzeFontFamilyConsistency.
  rewrite <- (app_nil_l (flat_map _ _)), <- fold_left_push.
  apply fold_left_pointwise. intros acc [k v]. unfold familyEmit.
  destruct (2 <? List.length v)%nat; [reflexivity | now rewrite app_nil_r].
Qed.

Lemma familyEmit_context (k : Context) (v : list string) (i : Issue) :
  In i (familyEmit k v) -> issueContext i = Some k.
Proof.
  unfold familyEmit. destruct (2 <? List.length v)%nat; simpl; [|tauto].
  now intros [<-|[]].
Qed.

Lemma fontFamilyGroups_keys (ms : list Metric) :
  NoDup (List.map fst (fontFamilyGroups ms)).
Proof. rewrite fontFamilyGroups_fold. apply keys_groups. constructor. Qed.

Lemma fontFamilyGroups_get (ms : list Metric) (c : Context) :
  JsMap.get Context_eqb c (fontFamilyGroups ms) =
  match runsIn c ms with
  | [] => None
  | _ => Some (fontsOf c ms)
  end.
Proof.
  rewrite fontFamilyGroups_fold, get_groups. unfold fontsOf. simpl.
  now destruct (runsIn c ms).
Qed.

Lemma family_issues_for (ms : list Metric) (c : Context) :
  issuesFor c (analyzeFontFamilyConsistency ms) = familyEmit c (fontsOf c ms).
Proof.
  rewrite analyzeFontFamilyConsistency_flat_map.
  rewrite (issuesFor_groups _ familyEmit familyEmit_context)
    by apply fontFamilyGroups_keys.
  rewrite fontFamilyGroups_get. unfold fontsOf.
  now destruct (runsIn c ms).
Qed.

(** C2.  Font-family detector: the runs are partitioned by the context the
    classifier derives from [fontSize] alone; with [fonts] the set of
    distinct families observed in a context, the detector reports nothing
    for that context when [fonts] has at most 2 elements, and otherwise
    exactly one issue, of severity [high], whose [detectedFonts] is
    [fonts]. *)
Theorem font_family_detector_per_context (metrics : list Metric) (c : Context) :
  (forall m1 m2 : Metric,
      (fontSize m1 == fontSize m2)%Q -> determineContext m1 = determineContext m2)
  /\ exists fonts : list string,
      NoDup fonts
      /\ (forall f, In f fonts <->
                    exists m, In m metrics /\ determineContext m = c
                              /\ fontFamily m = f)
      /\ issuesFor c (analyzeFontFamilyConsistency metrics) =
         (if (List.length fonts <=? 2)%nat then [] else [familyIssue c fonts])
      /\ severity (familyIssue c fonts) = high
      /\ issueContext (familyIssue c fonts) = Some c
      /\ detectedFonts (familyIssue c fonts) = Some fonts.
Proof.
  split; [exact determineContext_fontSize|].
  exists (fontsOf c metrics).
  destruct (fontsOf_spec c metrics) as [ND HIn].
  repeat split; try assumption; try (now apply HIn).
  rewrite family_issues_for. unfold familyEmit.
  rewrite Nat.ltb_antisym. now destruct (List.length _ <=? 2)%nat.
Qed.

(** ** Comparisons and sums *)

Lemma Qgtb_lt (a k : Q) : Qgtb a k = true <-> (k < a)%Q.
Proof.
  unfold Qgtb. rewrite negb_true_iff. split.
  - intro H. apply Qnot_le_lt. intro L. apply Qle_bool_iff in L. congruence.
  - intro H. destruct (Qle_bool a k) eqn:E; [|reflexivity].
    apply Qle_bool_iff in E. exfalso. exact (Qlt_not_le _ _ H E).
Qed.

Lemma Qltb_lt (a k : Q) : Qltb a k = true <-> (a < k)%Q.
Proof. exact (Qgtb_lt k a). Qed.

Lemma fold_left_Qplus {A : Type} (g : A -> Q) (l : list A) (acc : Q) :
  (fold_left (fun a b => a + g b) l acc == acc + Qsum (List.map g l))%Q.
Proof.
  revert acc. induction l as [|x l IH]; simpl; intro acc.
  - ring.
  - rewrite IH. ring.
Qed.


(** ** Doubles *)

(** Known values of double arithmetic: the double 0.1, the sum
    [0.1 + 0.2], the square root of 2, an overflow, and the quotients by
    zero. *)
Example double_arithmetic_values :
  Double.round 0.1
  = Double.Finite (3602879701896397 # 36028797018963968)
  /\ Double.add (Double.round 0.1) (Double.round 0.2)
     = Double.round 0.30000000000000004
  /\ Double.add (Double.round 0.1) (Double.round 0.2) <> Double.round 0.3
  /\ Double.sqrt (Double.Finite 2)
     = Double.Finite (6369051672525773 # 4503599627370496)
  /\ Double.add (Double.round (10 ^ 308)) (Double.round (10 ^ 308))
     = Double.PosInfinity
  /\ Double.div (Double.Finite 1) (Double.Finite 0) = Double.PosInfinity
  /\ Double.div (Double.Finite 0) (Double.Finite 0) = Double.NaN.
Proof.
  repeat split; try (vm_compute; reflexivity).
  vm_compute. discriminate.
Qed.

Lemma round_compat (q q' : Q) :
  (q == q')%Q -> Double.round q = Double.round q'.
Proof.
  intro H. unfold Double.round. now rewrite (Qred_complete q q' H).
Qed.

Lemma round_zero (q : Q) : (q == 0)%Q -> Double.round q = Double.Finite 0.
Proof. intro H. now rewrite (round_compat q 0 H). Qed.

Lemma deviation_zero (b m : Q) :
  (b == m)%Q ->
  Double.square (Double.sub (Double.Finite b) (Double.Finite m))
  = Double.Finite 0.
Proof.
  intro H. unfold Double.sub, Double.opp, Double.add.
  rewrite round_zero; [reflexivity|].
  rewrite Qred_correct, H. ring.
Qed.






(** ** The font-size detector, group by group *)

Lemma sizes_pushed (l : list Metric) (acc : list Q) :
  fold_left (fun sizes m => sizes ++ [fontSize m]) l acc =
  acc ++ List.map fontSize l.
Proof.
  revert acc. induction l as [|m l IH]; simpl; intro acc.
  - now rewrite app_nil_r.
  - now rewrite IH, <- app_assoc.
Qed.

Lemma fontSizeGroups_fold (ms : list Metric) :
  fontSizeGroups ms =
  fold_left (groupStep fontSize (fun s sizes => sizes ++ [s]) []) ms [].
Proof. reflexivity. Qed.

Lemma fontSizeGroups_keys (ms : list Metric) :
  NoDup (List.map fst (fontSizeGroups ms)).
Proof. rewrite fontSizeGroups_fold. apply keys_groups. constructor. Qed.

Lemma fontSizeGroups_get (ms : list Metric) (c : Context) :
  JsMap.get Context_eqb c (fontSizeGroups ms) =
  match runsIn c ms with
  | [] => None
  | l => Some (List.map fontSize l)
  end.
Proof.
  rewrite fontSizeGroups_fold, get_groups.
  destruct (runsIn c ms) as [|m l]; [reflexivity|].
  f_equal. now rewrite sizes_pushed.
Qed.

(** No group is empty: [reduce] never meets an empty array. *)
Lemma fontSizeGroups_nonempty (ms : list Metric) (c : Context) (sizes : list Q) :
  In (c, sizes) (fontSizeGroups ms) -> sizes <> [].
Proof.
  intro H. apply get_of_In in H; [|apply fontSizeGroups_keys].
  rewrite fontSizeGroups_get in H.
  destruct (runsIn c ms); [discriminate|].
  inversion H. discriminate.
Qed.

Lemma fontSizeLoop_cons (k : Context) (a : Q) (r : list Q)
      (rest : list (Context * list Q)) (acc : list Issue) :
  fontSizeLoop ((k, a :: r) :: rest) acc
  = fontSizeLoop rest (acc ++ sizeEmit k (a :: r)).
Proof.
  cbn [fontSizeLoop]. unfold sizeEmit, doubleVariance, doubleMean.
  cbn [reduce1]. cbv zeta.
  destruct (Double.gtb _ (Double.Finite 2)); [reflexivity|].
  now rewrite app_nil_r.
Qed.

Lemma fontSizeLoop_flat_map (g : list (Context * list Q)) (acc : list Issue) :
  (forall c sizes, In (c, sizes) g -> sizes <> []) ->
  fontSizeLoop g acc = Some (acc ++ flat_map (fun '(k, v) => sizeEmit k v) g).
Proof.
  revert acc. induction g as [|[k sizes] g IH]; intros acc NE.
  - simpl. now rewrite app_nil_r.
  - assert (NE' : forall c s, In (c, s) g -> s <> [])
      by (intros c s H; apply (NE c s); now right).
    destruct sizes as [|a r]; [exfalso; now apply (NE k []); [left|]|].
    rewrite fontSizeLoop_cons, (IH _ NE'). cbn [flat_map].
    now rewrite app_assoc.
Qed.

Lemma analyzeFontSizeConsistency_flat_map (ms : list Metric) :
  analyzeFontSizeConsistency ms =
  Some (flat_map (fun '(k, v) => sizeEmit k v) (fontSizeGroups ms)).
Proof.
  unfold analyzeFontSizeConsistency.
  rewrite fontSizeLoop_flat_map; [reflexivity|].
  apply fontSizeGroups_nonempty.
Qed.

Lemma sizeEmit_context (k : Context) (v : list Q) (i : Issue) :
  In i (sizeEmit k v) -> issueContext i = Some k.
Proof.
  unfold sizeEmit. destruct v; [simpl; tauto|].
  destruct (Double.gtb _ _); [|simpl; tauto]. now intros [<-|[]].
Qed.

Lemma size_issues_for (ms : list Metric) (c : Context) :
  issuesFor c (flat_map (fun '(k, v) => sizeEmit k v) (fontSizeGroups ms)) =
  sizeEmit c (List.map fontSize (runsIn c ms)).
Proof.
  rewrite (issuesFor_groups _ sizeEmit sizeEmit_context)
    by apply fontSizeGroups_keys.
  rewrite fontSizeGroups_get.
  now destruct (runsIn c ms).
Qed.


(** C9.  Whatever the length of the run list, the font-family detector and
    the font-size detector each report at most one issue per context, hence
    at most 3 issues: the classifier only yields [header], [subheader] or
    [body]. *)
Theorem detectors_report_at_most_three_issues (metrics : list Metric) :
  (forall m : Metric, In (determineContext m) [header; subheader; body])
  /\ (forall c : Context,
         (List.length (issuesFor c (analyzeFontFamilyConsistency metrics)) <= 1)%nat)
  /\ (List.length (analyzeFontFamilyConsistency metrics) <= 3)%nat
  /\ exists issues : list Issue,
      analyzeFontSizeConsistency metrics = Some issues
      /\ (forall c : Context, (List.length (issuesFor c issues) <= 1)%nat)
      /\ (List.length issues <= 3)%nat.
Proof.
  assert (F1 : forall k v, (List.length (familyEmit k v) <= 1)%nat).
  { intros k v. unfold familyEmit. destruct (2 <? _)%nat; simpl; lia. }
  assert (S1 : forall k v, (List.length (sizeEmit k v) <= 1)%nat).
  { intros k v. unfold sizeEmit. destruct v; [simpl; lia|].
    destruct (Double.gtb _ _); simpl; lia. }
  split; [intro m; apply Context_all|].
  split; [intro c; rewrite family_issues_for; apply F1|].
  split.
  - rewrite analyzeFontFamilyConsistency_flat_map.
    apply emitted_length; [exact F1 | apply fontFamilyGroups_keys].
  - eexists. split; [apply analyzeFontSizeConsistency_flat_map|]. split.
    + intro c. rewrite size_issues_for. apply S1.
    + apply emitted_length; [exact S1 | apply fontSizeGroups_keys].
Qed.

(** ** The spacing detector *)

Lemma spacing_scan (ms : list Metric) (prev : Metric) (acc : list Issue) :
  fst (fold_left spacingStep ms (acc, Some prev)) =
  acc ++ flat_map pairEmit (combine (prev :: ms) ms).
Proof.
  revert prev acc. induction ms as [|m ms IH]; intros prev acc.
  - simpl. now rewrite app_nil_r.
  - cbn [fold_left]. unfold spacingStep at 2.
    change (combine (prev :: m :: ms) (m :: ms))
      with ((prev, m) :: combine (m :: ms) ms).
    cbn [flat_map]. unfold pairEmit at 1.
    destruct (isSpacingAbnormal (calculateSpacing prev m)).
    + rewrite IH. now rewrite <- app_assoc.
    + rewrite IH. reflexivity.
Qed.

Lemma analyzeSpacingConsistency_pairs (ms : list Metric) :
  analyzeSpacingConsistency ms = flat_map pairEmit (adjacentPairs ms).
Proof.
  unfold analyzeSpacingConsistency, adjacentPairs.
  destruct ms as [|m ms]; [reflexivity|].
  cbn [fold_left]. unfold spacingStep at 2.
  now rewrite spacing_scan.
Qed.

Lemma ltb_Finite (a b : Q) :
  Double.ltb (Double.Finite a) (Double.Finite b) = true <-> (a < b)%Q.
Proof. exact (Qltb_lt a b). Qed.

Lemma gtb_Finite (a b : Q) :
  Double.gtb (Double.Finite a) (Double.Finite b) = true <-> (b < a)%Q.
Proof. exact (Qgtb_lt a b). Qed.

(** [Math.sqrt] never answers a negative number. *)
Lemma sqrt_not_negative (x : Double.t) :
  Double.ltb (Double.sqrt x) (Double.Finite 0) = false.
Proof.
  destruct x as [a| | |]; try reflexivity.
  unfold Double.sqrt. cbv zeta.
  destruct (Qeq_bool (Qred a) 0); [reflexivity|].
  destruct (Qle_bool (Qred a) 0); [reflexivity|].
  set (e := Z.max _ _). set (u := (Double.two ^ (e - 52))%Q).
  set (f := Z.sqrt _).
  assert (F : (0 <= f)%Z) by apply Z.sqrt_nonneg.
  set (n := match _ with Lt => f | Eq => _ | Gt => _ end).
  assert (N : (0 <= n)%Z).
  { subst n. destruct (_ ?= _)%Q; [destruct (Z.even f)| |]; lia. }
  unfold Double.ltb. apply negb_false_iff, Qle_bool_iff.
  rewrite Qred_correct. apply Qmult_le_0_compat.
  - change 0%Q with (inject_Z 0). now rewrite <- Zle_Qle.
  - apply Qpower_0_le. discriminate.
Qed.

Lemma isSpacingAbnormal_true (spacing : Double.t) :
  isSpacingAbnormal spacing = true <->
  Double.ltb spacing MIN_NORMAL_SPACING = true \/
  Double.gtb spacing MAX_NORMAL_SPACING = true.
Proof. unfold isSpacingAbnormal. apply orb_true_iff. Qed.

Lemma isSpacingAbnormal_Finite (s : Q) :
  isSpacingAbnormal (Double.Finite s) = true <->
  (s < literal 0.1 \/ 20 < s)%Q.
Proof.
  rewrite isSpacingAbnormal_true.
  change MIN_NORMAL_SPACING with (Double.Finite (literal 0.1)).
  unfold MAX_NORMAL_SPACING. now rewrite ltb_Finite, gtb_Finite.
Qed.

(** C4, as amended.  Spacing detector: the issues are those of the adjacent pairs of
    the run list, in input order, the first run having no predecessor; the
    spacing of a pair is the distance from the right edge of the predecessor
    to the origin of the run as double arithmetic computes it: the edge,
    the two differences, their squares, the sum and the square root are
    each rounded.  It is never negative.  A computed spacing that is
    neither below the double 0.1 nor above 20, these two values included,
    reports nothing; a computed spacing below the double 0.1 or above 20,
    infinite included, reports exactly one issue of severity [medium]
    carrying the computed spacing and the position of the run. *)
Theorem spacing_detector_adjacent_pairs (metrics : list Metric) :
  analyzeSpacingConsistency metrics = flat_map pairEmit (adjacentPairs metrics)
  /\ forall prev current : Metric,
      let edge := Double.add (Double.Finite (Position.x (position prev)))
                             (Double.Finite (width prev)) in
      let dx := Double.sub (Double.Finite (Position.x (position current)))
                           edge in
      let dy := Double.sub (Double.Finite (Position.y (position current)))
                           (Double.Finite (Position.y (position prev))) in
      let spacing := calculateSpacing prev current in
      spacing = Double.sqrt (Double.add (Double.square dx) (Double.square dy))
      /\ Double.ltb spacing (Double.Finite 0) = false
      /\ (Double.ltb spacing MIN_NORMAL_SPACING = false ->
          Double.gtb spacing MAX_NORMAL_SPACING = false ->
          pairEmit (prev, current) = [])
      /\ (Double.ltb spacing MIN_NORMAL_SPACING = true \/
          Double.gtb spacing MAX_NORMAL_SPACING = true ->
          pairEmit (prev, current) = [spacingIssue current spacing])
      /\ (forall s : Q,
             spacing = Double.Finite s ->
             ((literal 0.1 <= s <= 20)%Q -> pairEmit (prev, current) = []) /\
             ((s < literal 0.1 \/ 20 < s)%Q ->
              pairEmit (prev, current) = [spacingIssue current spacing]))
      /\ (spacing = Double.PosInfinity ->
          pairEmit (prev, current) = [spacingIssue current spacing])
      /\ severity (spacingIssue current spacing) = medium
      /\ details (spacingIssue current spacing) = Some (SpacingDetails spacing)
      /\ issuePosition (spacingIssue current spacing) = Some (position current).
Proof.
  split; [apply analyzeSpacingConsistency_pairs|].
  intros prev current edge dx dy spacing.
  split; [reflexivity|].
  split; [apply sqrt_not_negative|].
  split; [|split; [|split; [|split; [|now repeat split]]]].
  - intros L G. unfold pairEmit. fold spacing.
    unfold isSpacingAbnormal. now rewrite L, G.
  - intro H. apply isSpacingAbnormal_true in H.
    unfold pairEmit. fold spacing. now rewrite H.
  - intros s E. unfold pairEmit. fold spacing. split.
    + intros [L U]. destruct (isSpacingAbnormal spacing) eqn:A; [|reflexivity].
      rewrite E in A. apply isSpacingAbnormal_Finite in A.
      destruct A as [A|A]; [now apply Qlt_not_le in A | now apply Qlt_not_le in A].
    + intro H. apply isSpacingAbnormal_Finite in H.
      rewrite <- E in H. now rewrite H.
  - intro E. unfold pairEmit. fold spacing. now rewrite E.
Qed.

(** ** The scoring engine *)

Lemma issueScore_sum (l : list Issue) :
  (fold_left
     (fun sum issue =>
        sum + match severity issue with
              | high => 1
              | medium => 0.6
              | low => 0.3
              end) l 0 == multiplierSum l)%Q.
Proof.
  unfold multiplierSum.
  rewrite (fold_left_Qplus (fun i => severityMultiplier (severity i))).
  ring.
Qed.

(** C1.  The severity score is the sum over the three issue types of the
    weight of the type (0.4 for [fontFamily], 0.3 for [fontSize], 0.3 for
    [spacing]) times the sum of the severity multipliers of its issues (1
    for [high], 0.6 for [medium], 0.3 for [low]). *)
Theorem severity_score_weighted_sum (inconsistencies : Inconsistencies) :
  (calculateSeverityScore inconsistencies ==
   0.4 * multiplierSum (issuesOf (incFontFamily inconsistencies))
   + 0.3 * multiplierSum (incFontSize inconsistencies)
   + 0.3 * multiplierSum (incSpacing inconsistencies))%Q
  /\ (weights "fontFamily" = Some 0.4 /\ weights "fontSize" = Some 0.3
      /\ weights "spacing" = Some 0.3)%Q
  /\ (severityMultiplier high == 1 /\ severityMultiplier medium == 0.6
      /\ severityMultiplier low == 0.3)%Q.
Proof.
  split; [|repeat split; reflexivity].
  unfold calculateSeverityScore, entries. cbn [fold_left].
  change (weights "fontFamily") with (Some 0.4%Q).
  change (weights "fontSize") with (Some 0.3%Q).
  change (weights "spacing") with (Some 0.3%Q).
  cbv beta iota zeta.
  replace (match incFontFamily inconsistencies with
           | IssueArray l => l
           | IssueObject l _ => l
           end) with (issuesOf (incFontFamily inconsistencies)) by reflexivity.
  rewrite !issueScore_sum. ring.
Qed.

Lemma clamp_min_max (v : Q) : (Qmin 1 (Qmax 0 v) == clamp v 0 1)%Q.
Proof.
  unfold clamp.
  destruct (Qltb v 0) eqn:L.
  - apply Qltb_lt in L.
    rewrite (Q.max_l 0 v) by now apply Qlt_le_weak.
    now rewrite Q.min_r.
  - assert (P : (0 <= v)%Q).
    { apply Qnot_lt_le. intro H. apply Qltb_lt in H. congruence. }
    rewrite (Q.max_r 0 v) by assumption.
    destruct (Qgtb v 1) eqn:G.
    + apply Qgtb_lt in G. apply Q.min_l. now apply Qlt_le_weak.
    + apply Q.min_r. apply Qnot_lt_le. intro H. apply Qgtb_lt in H. congruence.
Qed.

Lemma calculateConfidenceScore_range (n : nat) (s : Q) :
  (0 <= calculateConfidenceScore n s <= 1)%Q.
Proof.
  unfold calculateConfidenceScore. split; [apply Q.le_max_l|].
  apply Q.max_lub; [discriminate|].
  assert (B : (Qmin 1 (Qmax 0 (1 - s / 10)) <= 1)%Q) by apply Q.le_min_l.
  assert (P : (0 <= Qmin 0.5 (inject_Z (Z.of_nat n) * 0.1))%Q).
  { apply Q.min_glb; [discriminate|].
    apply Qmult_le_0_compat; [|discriminate].
    unfold Qle. simpl. lia. }
  lra.
Qed.

Lemma totalIssues_sum (inconsistencies : Inconsistencies) :
  fold_left
    (fun sum issues =>
       match issues with
       | IssueArray l => sum + List.length l
       | IssueObject l _ => sum + List.length l
       end)%nat
    (List.map snd (entries inconsistencies)) 0%nat
  = (List.length (issuesOf (incFontFamily inconsistencies))
     + List.length (incFontSize inconsistencies)
     + List.length (incSpacing inconsistencies))%nat.
Proof.
  unfold entries. simpl. now destruct (incFontFamily inconsistencies).
Qed.

(** C5.  Confidence is [max(0, baseConfidence - issuesPenalty)] with
    [baseConfidence = clamp(1 - severityScore / 10, 0, 1)] and
    [issuesPenalty = min(0.5, totalIssues * 0.1)]; it lies in [0, 1]; the
    report carries this value for its own [totalIssues] and
    [severityScore]; with no issue and no severity, as for the empty run
    list, it is 1. *)
Theorem confidence_formula_and_range :
  (forall (totalIssues : nat) (severityScore : Q),
      (calculateConfidenceScore totalIssues severityScore ==
       Qmax 0 (clamp (1 - severityScore / 10) 0 1
               - Qmin 0.5 (nQ totalIssues * 0.1)))%Q
      /\ (0 <= calculateConfidenceScore totalIssues severityScore <= 1)%Q)
  /\ (forall (now : string) (familyIssues : list Issue)
             (fonts : list FontCount) (sizeIssues spaceIssues : list Issue),
         exists r : Report,
           generateReport now
             {| incFontFamily := IssueObject familyIssues fonts;
                incFontSize := sizeIssues;
                incSpacing := spaceIssues |} = Some r
           /\ confidence r =
              calculateConfidenceScore (totalIssues (summary r))
                                       (severityScore r))
  /\ (calculateConfidenceScore 0 0 == 1)%Q
  /\ (forall now : string,
         exists (inconsistencies : Inconsistencies) (r : Report),
           inconsistenciesOf [] = Some inconsistencies
           /\ generateReport now inconsistencies = Some r
           /\ suspicious r = false
           /\ (severityScore r == 0)%Q
           /\ (confidence r == 1)%Q).
Proof.
  split; [|split; [|split]].
  - intros n s. split; [|apply calculateConfidenceScore_range].
    unfold calculateConfidenceScore, nQ. now rewrite clamp_min_max.
  - intros. eexists. split; reflexivity.
  - reflexivity.
  - intro now. do 2 eexists. repeat split; reflexivity.
Qed.

(** C6.  For the three issue lists as [analyzePDF] hands them over, the
    report exists, its [totalIssues] is the sum of the three issue counts,
    and [suspicious] holds exactly when [totalIssues] is positive; the same
    holds of any report [generateReport] returns. *)
Theorem report_total_and_suspicious :
  (forall (now : string) (familyIssues : list Issue) (fonts : list FontCount)
          (sizeIssues spaceIssues : list Issue),
      exists r : Report,
        generateReport now
          {| incFontFamily := IssueObject familyIssues fonts;
             incFontSize := sizeIssues;
             incSpacing := spaceIssues |} = Some r
        /\ totalIssues (summary r)
           = (List.length familyIssues + List.length sizeIssues
              + List.length spaceIssues)%nat
        /\ fontFamilyIssues (summary r) = List.length familyIssues
        /\ fontSizeIssues (summary r) = List.length sizeIssues
        /\ spacingIssues (summary r) = List.length spaceIssues
        /\ (suspicious r = true <-> (0 < totalIssues (summary r))%nat))
  /\ (forall (now : string) (inconsistencies : Inconsistencies) (r : Report),
         generateReport now inconsistencies = Some r ->
         totalIssues (summary r)
         = (List.length (issuesOf (incFontFamily inconsistencies))
            + List.length (incFontSize inconsistencies)
            + List.length (incSpacing inconsistencies))%nat
         /\ (suspicious r = true <-> (0 < totalIssues (summary r))%nat)).
Proof.
  split.
  - intros. eexists. split; [reflexivity|].
    cbn [summary totalIssues fontFamilyIssues fontSizeIssues
         spacingIssues suspicious].
    rewrite totalIssues_sum.
    cbn [issuesOf incFontFamily incFontSize incSpacing].
    repeat split; try reflexivity; apply Nat.ltb_lt.
  - intros now inc r E. unfold generateReport in E.
    destruct (incFontFamily inc) as [|issues fonts] eqn:S; [discriminate|].
    inversion E; subst; clear E.
    cbn [summary totalIssues suspicious]. rewrite S. cbn [issuesOf].
    repeat split; try reflexivity; apply Nat.ltb_lt.
Qed.

Lemma report_total_witness :
  exists r : Report,
    generateReport "" noIssues = Some r
    /\ totalIssues (summary r) = 0%nat
    /\ (suspicious r = true <-> (0 < totalIssues (summary r))%nat).
Proof.
  destruct report_total_and_suspicious as [H1 H2].
  destruct (H1 "" [] [] [] []) as [r [E _]].
  exists r. split; [exact E|].
  destruct (H2 "" noIssues r E) as [T S].
  split; [exact T | exact S].
Defined.

(** The report test of the repository hands [generateReport] three bare
    arrays; reading [inconsistencies.fontFamily.issues.length] then raises,
    while the score of the same object is computed. *)
Lemma generateReport_bare_arrays (now : string) :
  generateReport now mockInconsistencies = None
  /\ (calculateSeverityScore mockInconsistencies == 0.67)%Q.
Proof. split; reflexivity. Qed.

(** ** Placement of the rectangles *)

Lemma pageFor_Some (pages : list Q) (y : Q) (i : nat) (H : Q) :
  pageFor pages y = Some (i, H) -> nth_error pages i = Some H.
Proof.
  unfold pageFor. destruct (pageIndexOf y (nth 0 pages 0%Q)) as [idx|]; [|discriminate].
  destruct ((0 <=? idx)%Z && (idx <? Z.of_nat (List.length pages))%Z); [|discriminate].
  destruct (nth_error pages (Z.to_nat idx)) eqn:E; [|discriminate].
  intro X. inversion X; subst. exact E.
Qed.

Lemma pageFor_out_of_range (pages : list Q) (y : Q) :
  pageIndexOutOfRange pages y -> pageFor pages y = None.
Proof.
  unfold pageIndexOutOfRange, pageFor.
  destruct (pageIndexOf y (nth 0 pages 0%Q)) as [idx|]; [|reflexivity].
  intros [H|H].
  - assert (E : (0 <=? idx)%Z = false) by (apply Z.leb_gt; lia).
    now rewrite E.
  - assert (E : (idx <? Z.of_nat (List.length pages))%Z = false)
      by (apply Z.ltb_ge; lia).
    rewrite E. now rewrite andb_false_r.
Qed.

Lemma highlightMetric_placed (pages : list Q) (c : Color) (m : Metric) (op : DrawOp) :
  In op (highlightMetric pages c m) -> placedFor pages (position m) op.
Proof.
  unfold highlightMetric.
  destruct (pageFor pages (Position.y (position m))) as [[i H]|] eqn:E; [|intros []].
  intros [<-|[]]. exists i, H. do 4 eexists.
  split; [now apply pageFor_Some with (y := Position.y (position m))|].
  split; [exact E | reflexivity].
Qed.

Lemma highlightPosition_placed (pages : list Q) (c : Color) (pos : Position.t)
      (op : DrawOp) :
  In op (highlightPosition pages c pos) -> placedFor pages pos op.
Proof.
  unfold highlightPosition.
  destruct (pageFor pages (Position.y pos)) as [[i H]|] eqn:E; [|intros []].
  intros [<-|[]]. exists i, H. do 4 eexists.
  split; [now apply pageFor_Some with (y := Position.y pos)|].
  split; [exact E | reflexivity].
Qed.

Lemma highlightedRects_placed
      (pages : list Q) (ms : list Metric) (inc : Inconsistencies) (op : DrawOp) :
  In op (highlightedRects pages ms inc) ->
  (exists m, In m ms /\ placedFor pages (position m) op)
  \/ (exists issue pos, In issue (incSpacing inc)
                        /\ issuePosition issue = Some pos
                        /\ placedFor pages pos op).
Proof.
  unfold highlightedRects. rewrite !in_app_iff. intros [H|[H|H]].
  - left. destruct (incFontFamily inc) as [|issues fonts]; [destruct H|].
    apply in_flat_map in H. destruct H as [issue [_ H]].
    apply in_flat_map in H. destruct H as [m [Hm H]].
    apply filter_In in Hm. exists m. split; [tauto|].
    now apply highlightMetric_placed in H.
  - left. apply in_flat_map in H. destruct H as [issue [_ H]].
    apply in_flat_map in H. destruct H as [m [Hm H]].
    apply filter_In in Hm. exists m. split; [tauto|].
    now apply highlightMetric_placed in H.
  - right. apply in_flat_map in H. destruct H as [issue [Hi H]].
    destruct (issuePosition issue) as [pos|] eqn:E; [|destruct H].
    exists issue, pos. repeat split; try assumption.
    now apply highlightPosition_placed in H.
Qed.

Lemma fontTypeLoop_placed (pages : list Q) (fc : list (string * FontColor))
      (ms : list Metric) (drawn plan : list DrawOp) :
  fontTypeLoop pages fc ms drawn = Some plan ->
  exists rects,
    plan = drawn ++ rects /\
    forall op, In op rects ->
               exists m, In m ms /\ placedFor pages (position m) op.
Proof.
  revert drawn. induction ms as [|m ms IH]; simpl; intros drawn E.
  - inversion E. exists []. split; [now rewrite app_nil_r | intros ? []].
  - destruct (pageFor pages (Position.y (position m))) as [[i H]|] eqn:P.
    + destruct (JsMap.get String.eqb (fontFamily m) fc) as [entry|]; [|discriminate].
      destruct (IH _ E) as [rects [-> Hr]].
      eexists (_ :: rects). split; [now rewrite <- app_assoc|].
      intros op [<-|Hop].
      * exists m. split; [now left|]. exists i, H. do 4 eexists.
        split; [now apply pageFor_Some with (y := Position.y (position m))|].
        split; [exact P | reflexivity].
      * destruct (Hr op Hop) as [m' [Hm' Hp]]. exists m'. split; [now right | assumption].
    + destruct (IH _ E) as [rects [-> Hr]].
      exists rects. split; [reflexivity|].
      intros op Hop. destruct (Hr op Hop) as [m' [Hm' Hp]].
      exists m'. split; [now right | assumption].
Qed.

Lemma placedFor_reverses (pages : list Q) (pos1 pos2 : Position.t)
      (op1 op2 : DrawOp) (i : nat) (H1 H2 : Q) :
  pageFor pages (Position.y pos1) = Some (i, H1) ->
  pageFor pages (Position.y pos2) = Some (i, H2) ->
  placedFor pages pos1 op1 -> placedFor pages pos2 op2 ->
  (Position.y pos1 < Position.y pos2)%Q ->
  exists y1 y2 : Q, rectY op1 = Some y1 /\ rectY op2 = Some y2 /\ (y2 < y1)%Q.
Proof.
  intros P1 P2 [i1 [h1 [w1 [e1 [c1 [o1 [_ [Q1 ->]]]]]]]]
         [i2 [h2 [w2 [e2 [c2 [o2 [_ [Q2 ->]]]]]]]] L.
  rewrite P1 in Q1. rewrite P2 in Q2. inversion Q1; inversion Q2; subst.
  apply pageFor_Some in P1. apply pageFor_Some in P2.
  rewrite P1 in P2. inversion P2; subst.
  do 2 eexists. repeat split. lra.
Qed.

(** ** Positions outside the document *)

Lemma highlightMetric_skipped (pages : list Q) (c : Color) (m : Metric) :
  pageIndexOutOfRange pages (Position.y (position m)) -> highlightMetric pages c m = [].
Proof.
  intro H. unfold highlightMetric. now rewrite (pageFor_out_of_range _ _ H).
Qed.

Lemma highlightPosition_skipped (pages : list Q) (c : Color) (pos : Position.t) :
  pageIndexOutOfRange pages (Position.y pos) -> highlightPosition pages c pos = [].
Proof.
  intro H. unfold highlightPosition. now rewrite (pageFor_out_of_range _ _ H).
Qed.

Lemma flat_map_filter_skip {A B : Type} (f : A -> list B) (p : A -> bool)
      (l1 l2 : list A) (a : A) :
  f a = [] ->
  flat_map f (filter p (l1 ++ a :: l2)) = flat_map f (filter p (l1 ++ l2)).
Proof.
  intro E. rewrite !filter_app, !flat_map_app. f_equal.
  simpl. destruct (p a); [simpl; now rewrite E | reflexivity].
Qed.

Lemma highlightedRects_skip_run (pages : list Q) (ms1 ms2 : list Metric)
      (m : Metric) (inc : Inconsistencies) :
  pageIndexOutOfRange pages (Position.y (position m)) ->
  highlightedRects pages (ms1 ++ m :: ms2) inc
  = highlightedRects pages (ms1 ++ ms2) inc.
Proof.
  intro H. unfold highlightedRects. f_equal; [|f_equal].
  - destruct (incFontFamily inc); [reflexivity|].
    apply flat_map_ext. intro issue.
    apply flat_map_filter_skip. now apply highlightMetric_skipped.
  - apply flat_map_ext. intro issue.
    apply flat_map_filter_skip. now apply highlightMetric_skipped.
Qed.

Lemma highlightedRects_skip_issue (pages : list Q) (ms : list Metric)
      (e : Entry) (sizes l1 l2 : list Issue) (issue : Issue) (pos : Position.t) :
  issuePosition issue = Some pos ->
  pageIndexOutOfRange pages (Position.y pos) ->
  highlightedRects pages ms
    {| incFontFamily := e; incFontSize := sizes;
       incSpacing := l1 ++ issue :: l2 |}
  = highlightedRects pages ms
      {| incFontFamily := e; incFontSize := sizes; incSpacing := l1 ++ l2 |}.
Proof.
  intros E H. unfold highlightedRects. cbn [incFontFamily incFontSize incSpacing].
  do 2 f_equal. rewrite !flat_map_app. f_equal. simpl.
  now rewrite E, (highlightPosition_skipped _ _ _ H).
Qed.

Lemma fontTypeLoop_skip (pages : list Q) (fc : list (string * FontColor))
      (ms1 ms2 : list Metric) (m : Metric) (drawn : list DrawOp) :
  pageIndexOutOfRange pages (Position.y (position m)) ->
  fontTypeLoop pages fc (ms1 ++ m :: ms2) drawn
  = fontTypeLoop pages fc (ms1 ++ ms2) drawn.
Proof.
  intro H. revert drawn. induction ms1 as [|a ms1 IH]; intro drawn.
  - simpl. now rewrite (pageFor_out_of_range _ _ H).
  - simpl. destruct (pageFor pages (Position.y (position a))) as [[i h]|]; [|apply IH].
    destruct (JsMap.get String.eqb (fontFamily a) fc); [apply IH | reflexivity].
Qed.

Lemma pageIndexOutOfRange_floor (h0 : Q) (rest : list Q) (y : Q) :
  ~ (h0 == 0)%Q ->
  (pageIndexOutOfRange (h0 :: rest) y <->
   match Double.round (y / h0) with
   | Double.Finite quotient =>
       (Qfloor quotient < 0
        \/ Z.of_nat (List.length (h0 :: rest)) <= Qfloor quotient)%Z
   | _ => True
   end).
Proof.
  intro NZ. unfold pageIndexOutOfRange, pageIndexOf, Double.div. cbn [nth].
  destruct (Qeq_bool h0 0) eqn:E.
  - apply Qeq_bool_iff in E. contradiction.
  - now destruct (Double.round (y / h0)).
Qed.

Lemma pageIndexOutOfRange_exact (h0 : Q) (rest : list Q) (y : Q) :
  ~ (h0 == 0)%Q -> isDouble (y / h0) ->
  (pageIndexOutOfRange (h0 :: rest) y <->
   (Qfloor (y / h0) < 0
    \/ Z.of_nat (List.length (h0 :: rest)) <= Qfloor (y / h0))%Z).
Proof.
  intros NZ D. rewrite (pageIndexOutOfRange_floor h0 rest y NZ), D.
  now rewrite (Qfloor_comp _ _ (Qred_correct (y / h0))).
Qed.

(** *** The plain object [fontColors] *)

Section ObjectFacts.

Variable V : Type.
Implicit Types (o : list (string * V)) (k : string) (v : V).

Local Abbreviation get := (JsMap.get String.eqb).
Local Abbreviation has := (JsMap.has String.eqb).

Lemma has_false_get k o : has k o = false <-> get k o = None.
Proof.
  induction o as [|[a b] o IH]; simpl; [tauto|].
  destruct (a =? k)%string; [split; discriminate | exact IH].
Qed.

Lemma has_false_keys k o : has k o = false <-> ~ In k (List.map fst o).
Proof.
  induction o as [|[a b] o IH]; simpl; [tauto|].
  destruct (a =? k)%string eqn:E.
  - apply String.eqb_eq in E. split; [discriminate | tauto].
  - apply String.eqb_neq in E. rewrite IH. tauto.
Qed.

Lemma get_mapset_same k v o : get k (JsMap.set String.eqb k v o) = Some v.
Proof.
  induction o as [|[a b] o IH]; simpl.
  - now rewrite String.eqb_refl.
  - destruct (a =? k)%string eqn:E; simpl; rewrite E; [reflexivity | exact IH].
Qed.

Lemma get_mapset_other k k' v o :
  k' <> k -> get k (JsMap.set String.eqb k' v o) = get k o.
Proof.
  intro NE. apply String.eqb_neq in NE.
  induction o as [|[a b] o IH]; simpl.
  - now rewrite NE.
  - destruct (a =? k')%string eqn:E; simpl.
    + apply String.eqb_eq in E. subst a. now rewrite NE.
    + now rewrite IH.
Qed.

Lemma get_insertIndex_same i k v o :
  has k o = false -> get k (JsObject.insertIndex i k v o) = Some v.
Proof.
  induction o as [|[a b] o IH]; simpl; intro H.
  - now rewrite String.eqb_refl.
  - destruct (a =? k)%string eqn:E; [discriminate|].
    destruct (JsObject.arrayIndex a) as [j|];
      [destruct (i <? j)%N|]; simpl; rewrite ?String.eqb_refl, ?E; auto.
Qed.

Lemma get_insertIndex_other i k k' v o :
  k' <> k -> get k (JsObject.insertIndex i k' v o) = get k o.
Proof.
  intro NE. apply String.eqb_neq in NE.
  induction o as [|[a b] o IH]; simpl.
  - now rewrite NE.
  - destruct (JsObject.arrayIndex a) as [j|];
      [destruct (i <? j)%N|]; simpl; rewrite ?NE, ?IH; reflexivity.
Qed.

Lemma get_app_last k k' v o :
  get k (o ++ [(k', v)])
  = match get k o with
    | Some x => Some x
    | None => if (k' =? k)%string then Some v else None
    end.
Proof.
  induction o as [|[a b] o IH]; simpl; [reflexivity|].
  now destruct (a =? k)%string.
Qed.

(** Reading a property just assigned gives the value assigned. *)
Lemma get_objset_same k v o : get k (JsObject.set k v o) = Some v.
Proof.
  unfold JsObject.set. destruct (has k o) eqn:H.
  - apply get_mapset_same.
  - destruct (JsObject.arrayIndex k) as [i|].
    + now apply get_insertIndex_same.
    + rewrite get_app_last, String.eqb_refl.
      apply has_false_get in H. now rewrite H.
Qed.

(** Assigning a property leaves the others as they are. *)
Lemma get_objset_other k k' v o :
  k' <> k -> get k (JsObject.set k' v o) = get k o.
Proof.
  intro NE. unfold JsObject.set. destruct (has k' o).
  - now apply get_mapset_other.
  - destruct (JsObject.arrayIndex k') as [i|].
    + now apply get_insertIndex_other.
    + rewrite get_app_last. apply String.eqb_neq in NE. rewrite NE.
      now destruct (get k o).
Qed.

Lemma insertIndex_Permutation i k v o :
  Permutation (JsObject.insertIndex i k v o) ((k, v) :: o).
Proof.
  induction o as [|[a b] o IH]; simpl; [reflexivity|].
  destruct (JsObject.arrayIndex a) as [j|];
    [destruct (i <? j)%N|]; try reflexivity.
  rewrite IH. apply perm_swap.
Qed.

(** A new property joins the others, somewhere. *)
Lemma objset_fresh_Permutation k v o :
  has k o = false -> Permutation (JsObject.set k v o) (o ++ [(k, v)]).
Proof.
  intro H. unfold JsObject.set. rewrite H.
  destruct (JsObject.arrayIndex k) as [i|]; [|reflexivity].
  rewrite insertIndex_Permutation. apply Permutation_cons_append.
Qed.

(** A new property whose key is no array index goes last. *)
Lemma objset_fresh_plain k v o :
  has k o = false -> JsObject.arrayIndex k = None ->
  JsObject.set k v o = o ++ [(k, v)].
Proof. intros H A. unfold JsObject.set. now rewrite H, A. Qed.

Lemma entries_length o :
  List.length (JsObject.entries o)
  = List.length
      (filter (fun k => negb (k =? "__proto__")%string) (List.map fst o)).
Proof.
  unfold JsObject.entries.
  induction o as [|[a b] o IH]; simpl; [reflexivity|].
  destruct (negb (a =? "__proto__")%string); simpl; now rewrite IH.
Qed.

End ObjectFacts.

(** *** The font-type loop never reads a family it has no colour for *)

Lemma fontColors_fold_get (metrics : list Metric) (total : nat)
      (l : list (nat * string)) (g : list (string * FontColor)) (f : string) :
  In f (List.map snd l) \/ JsMap.get String.eqb f g <> None ->
  JsMap.get String.eqb f
    (fold_left
       (fun fontColors '(index, font) =>
          JsObject.set font
            {| color := hueColor index total;
               count := occurrencesOf font metrics |}
            fontColors)
       l g) <> None.
Proof.
  revert g. induction l as [|[i font] l IH]; simpl; intros g H.
  - destruct H as [[]|H]; exact H.
  - apply IH. destruct H as [[<-|H]|H]; [right | now left | right].
    + now rewrite get_objset_same.
    + destruct (String.eqb_spec font f) as [->|NE].
      * now rewrite get_objset_same.
      * now rewrite get_objset_other.
Qed.

Lemma indexed_snd {A : Type} (l : list A) : List.map snd (indexed l) = l.
Proof.
  unfold indexed. generalize 0%nat.
  induction l as [|a l IH]; simpl; intro n; [reflexivity|].
  now rewrite IH.
Qed.

Lemma uniqueFontsOf_In (ms : list Metric) (m : Metric) :
  In m ms -> In (fontFamily m) (uniqueFontsOf ms).
Proof.
  intro H. unfold uniqueFontsOf.
  assert (E : forall l s,
             fold_left (fun s f => JsSet.add f s) (List.map fontFamily l) s
             = fold_left (fun fonts m => JsSet.add (fontFamily m) fonts) l s).
  { induction l as [|a l IH]; simpl; intro s; [reflexivity | apply IH]. }
  rewrite E. apply (families_fold ms [] (NoDup_nil _)).
  right. now exists m.
Qed.

Lemma fontColorsOf_get (ms : list Metric) (m : Metric) :
  In m ms -> JsMap.get String.eqb (fontFamily m) (fontColorsOf ms) <> None.
Proof.
  intro H. unfold fontColorsOf. apply fontColors_fold_get. left.
  rewrite indexed_snd. now apply uniqueFontsOf_In.
Qed.

Lemma fontTypeLoop_total (pages : list Q) (fc : list (string * FontColor))
      (ms : list Metric) (drawn : list DrawOp) :
  (forall m, In m ms -> JsMap.get String.eqb (fontFamily m) fc <> None) ->
  exists plan, fontTypeLoop pages fc ms drawn = Some plan.
Proof.
  revert drawn. induction ms as [|m ms IH]; simpl; intros drawn H; [eauto|].
  assert (H' : forall m', In m' ms ->
                          JsMap.get String.eqb (fontFamily m') fc <> None)
    by (intros; apply H; now right).
  destruct (pageFor pages (Position.y (position m))) as [[i h]|]; [|now apply IH].
  destruct (JsMap.get String.eqb (fontFamily m) fc) eqn:E.
  - now apply IH.
  - exfalso. apply (H m); [now left | exact E].
Qed.

Lemma fontTypePlan_total (pages : list Q) (ms : list Metric) :
  exists plan, fontTypePlan pages ms = Some plan.
Proof.
  unfold fontTypePlan.
  destruct (fontTypeLoop_total pages (fontColorsOf ms) ms [])
    as [drawn ->]; [|eauto].
  intros m Hm. now apply fontColorsOf_get.
Qed.

(** C10.  In both overlay generators a position whose page index
    [floor(y / firstPageHeight)], the quotient being the one doubles give,
    is negative or at least the number of pages yields no rectangle: the
    run or the spacing issue is passed over, the drawing calls being those
    of the input without it, and the plan of the font-type overlay is still
    produced, nothing being raised.  Where the quotient is a double the
    index is the floor of the exact quotient. *)
Theorem out_of_range_positions_are_skipped :
  (forall (h0 : Q) (rest : list Q) (y : Q),
      ~ (h0 == 0)%Q ->
      (pageIndexOutOfRange (h0 :: rest) y <->
       match Double.round (y / h0) with
       | Double.Finite quotient =>
           (Qfloor quotient < 0
            \/ Z.of_nat (List.length (h0 :: rest)) <= Qfloor quotient)%Z
       | _ => True
       end))
  /\ (forall (h0 : Q) (rest : list Q) (y : Q),
         ~ (h0 == 0)%Q -> isDouble (y / h0) ->
         (pageIndexOutOfRange (h0 :: rest) y <->
          (Qfloor (y / h0) < 0
           \/ Z.of_nat (List.length (h0 :: rest)) <= Qfloor (y / h0))%Z))
  /\ forall (pages : list Q) (y : Q),
      pageIndexOutOfRange pages y ->
      (forall (c : Color) (m : Metric),
          Position.y (position m) = y -> highlightMetric pages c m = [])
      /\ (forall (c : Color) (pos : Position.t),
             Position.y pos = y -> highlightPosition pages c pos = [])
      /\ (forall (ms1 ms2 : list Metric) (m : Metric) (inc : Inconsistencies),
             Position.y (position m) = y ->
             highlightedRects pages (ms1 ++ m :: ms2) inc
             = highlightedRects pages (ms1 ++ ms2) inc)
      /\ (forall (ms : list Metric) (e : Entry) (sizes l1 l2 : list Issue)
                 (issue : Issue) (pos : Position.t),
             issuePosition issue = Some pos -> Position.y pos = y ->
             highlightedRects pages ms
               {| incFontFamily := e; incFontSize := sizes;
                  incSpacing := l1 ++ issue :: l2 |}
             = highlightedRects pages ms
                 {| incFontFamily := e; incFontSize := sizes;
                    incSpacing := l1 ++ l2 |})
      /\ (forall (fc : list (string * FontColor)) (ms1 ms2 : list Metric)
                 (m : Metric) (drawn : list DrawOp),
             Position.y (position m) = y ->
             fontTypeLoop pages fc (ms1 ++ m :: ms2) drawn
             = fontTypeLoop pages fc (ms1 ++ ms2) drawn)
      /\ (forall ms : list Metric,
             exists plan, fontTypePlan pages ms = Some plan).
Proof.
  split; [exact pageIndexOutOfRange_floor|].
  split; [exact pageIndexOutOfRange_exact|].
  intros pages y H.
  split; [|split; [|split; [|split; [|split]]]];
    [| | | | |intro ms; apply fontTypePlan_total].
  - intros c m <-. now apply highlightMetric_skipped.
  - intros c pos <-. now apply highlightPosition_skipped.
  - intros ms1 ms2 m inc <-. now apply highlightedRects_skip_run.
  - intros ms e sizes l1 l2 issue pos E <-.
    now apply highlightedRects_skip_issue with (pos := pos).
  - intros fc ms1 ms2 m drawn <-. now apply fontTypeLoop_skip.
Qed.

(** ** Failures of the collaborators *)

Lemma tryCatch_rethrow {A : Type} (m : Outcome A) (msg : string) (E : JsError) :
  tryCatch m (fun error => loggerError msg error ;;; throw E) =
  match m with
  | (l, inl e) => (l ++ [(msg, e)], inl E)
  | (l, inr a) => (l, inr a)
  end.
Proof. destruct m as [l [e|a]]; reflexivity. Qed.

Lemma thrown_rethrow {A : Type} (m : Outcome A) (msg : string) (E err : JsError) :
  thrown (tryCatch m (fun error => loggerError msg error ;;; throw E)) = Some err ->
  err = E.
Proof.
  rewrite tryCatch_rethrow. destruct m as [l [e|a]]; unfold thrown; simpl; congruence.
Qed.

Lemma thrown_rethrow_iff {A : Type} (m : Outcome A) (msg : string) (E : JsError) :
  thrown m <> None ->
  thrown (tryCatch m (fun error => loggerError msg error ;;; throw E)) = Some E.
Proof.
  rewrite tryCatch_rethrow. destruct m as [l [e|a]]; unfold thrown; simpl; congruence.
Qed.

Lemma thrown_bind {A B : Type} (m : Outcome A) (k : A -> Outcome B) :
  thrown m <> None -> thrown (bind m k) <> None.
Proof. destruct m as [l [e|a]]; unfold thrown; simpl; congruence. Qed.

Lemma thrown_bind_ret {A B : Type} (m : Outcome A) (k : A -> Outcome B)
      (a : A) (l : list (string * JsError)) :
  m = (l, inr a) -> thrown (k a) <> None -> thrown (bind m k) <> None.
Proof.
  intros -> H. unfold thrown, bind in *.
  destruct (k a) as [l' [e|b]]; simpl in *; congruence.
Qed.

Lemma bind_ret {A B : Type} (a : A) (k : A -> Outcome B) :
  bind (ret a) k = k a.
Proof. unfold bind, ret. now destruct (k a). Qed.

Lemma bind_await_inr {A B : Type} (a : A) (k : A -> Outcome B) :
  bind (await (inr a)) k = k a.
Proof. exact (bind_ret a k). Qed.

Section Failures.
Variable parse : Bytes -> JsError + list (list Item.t).
Variable load : Bytes -> JsError + list Q.
Variable write : Bytes -> list DrawOp -> JsError + Bytes.
Variable toBase64 : Bytes -> string.
Variable now : string.

Lemma generateHighlightedPDF_rejected
      (buf : Bytes) (ms : list Metric) (inc : Inconsistencies)
      (pages : list Q) (e : JsError) :
  load buf = inr pages -> pages <> [] ->
  write buf (highlightedPlan pages ms inc) = inl e ->
  generateHighlightedPDF load write buf ms inc =
  ([("Error generating highlighted PDF:", e)],
   inl (Error "Failed to generate highlighted PDF")).
Proof.
  intros L NE W. unfold generateHighlightedPDF. rewrite tryCatch_rethrow.
  unfold bind, await. rewrite L. destruct pages; [congruence|].
  now rewrite W.
Qed.

Lemma generateFontTypePDF_rejected
      (buf : Bytes) (ms : list Metric) (pages : list Q)
      (plan : list DrawOp) (e : JsError) :
  load buf = inr pages -> pages <> [] ->
  fontTypePlan pages ms = Some plan ->
  write buf plan = inl e ->
  generateFontTypePDF load write toBase64 buf ms =
  ([("Error generating font type PDF:", e)],
   inl (Error "Failed to generate font type PDF")).
Proof.
  intros L NE P W. unfold generateFontTypePDF. rewrite tryCatch_rethrow.
  unfold bind, await. rewrite L. destruct pages; [congruence|].
  rewrite P. simpl. now rewrite W.
Qed.

Lemma inconsistenciesOf_shape (ms : list Metric) (inc : Inconsistencies) :
  inconsistenciesOf ms = Some inc ->
  exists issues fonts, incFontFamily inc = IssueObject issues fonts.
Proof.
  unfold inconsistenciesOf.
  destruct (analyzeFontSizeConsistency ms); [|discriminate].
  intro E. inversion E. simpl. eauto.
Qed.

Lemma analyzePDF_overlay_failure
      (buf : Bytes) (items : list (list Item.t)) (inc : Inconsistencies) :
  parse buf = inr items ->
  inconsistenciesOf (flat_map (fun i => List.map metricOfItem i) items) = Some inc ->
  thrown (generateHighlightedPDF load write buf
            (flat_map (fun i => List.map metricOfItem i) items) inc) <> None
  \/ thrown (generateFontTypePDF load write toBase64 buf
               (flat_map (fun i => List.map metricOfItem i) items)) <> None ->
  thrown (analyzePDF parse load write toBase64 now buf)
  = Some (Error "Failed to analyze PDF document").
Proof.
  intros P I F. unfold analyzePDF. apply thrown_rethrow_iff.
  unfold extractFontMetrics. rewrite P, bind_await_inr, bind_ret.
  destruct (inconsistenciesOf_shape _ inc I) as [issues [fonts S]].
  rewrite I. cbn [orTypeError]. rewrite bind_ret.
  unfold generateReport. rewrite S. cbn [orTypeError]. rewrite bind_ret.
  destruct F as [F|F].
  - now apply thrown_bind.
  - destruct (generateHighlightedPDF load write buf _ inc) as [l1 [e1|b1]] eqn:G1.
    + unfold thrown. simpl. congruence.
    + eapply thrown_bind_ret; [reflexivity|]. now apply thrown_bind.
Qed.

End Failures.

(** C7, as amended.  When the writer rejects the annotation plan of an
    overlay, the generator hands the rejection to the logger and throws a new
    error with a fixed message and no cause; [analyzePDF] does the same with
    its own fixed message.  Whatever is thrown by the three functions is
    that fixed error: the failure reaches the caller, the originating error
    does not. *)
Theorem overlay_failure_rethrown_without_cause
        (parse : Bytes -> JsError + list (list Item.t))
        (load : Bytes -> JsError + list Q)
        (write : Bytes -> list DrawOp -> JsError + Bytes)
        (toBase64 : Bytes -> string) (now : string) (buf : Bytes) :
  (forall (pages : list Q) (ms : list Metric) (inc : Inconsistencies)
          (e : JsError),
      load buf = inr pages -> pages <> [] ->
      write buf (highlightedPlan pages ms inc) = inl e ->
      generateHighlightedPDF load write buf ms inc =
      ([("Error generating highlighted PDF:", e)],
       inl (Error "Failed to generate highlighted PDF")))
  /\ (forall (pages : list Q) (ms : list Metric) (plan : list DrawOp)
             (e : JsError),
         load buf = inr pages -> pages <> [] ->
         fontTypePlan pages ms = Some plan ->
         write buf plan = inl e ->
         generateFontTypePDF load write toBase64 buf ms =
         ([("Error generating font type PDF:", e)],
          inl (Error "Failed to generate font type PDF")))
  /\ (forall (items : list (list Item.t)) (inc : Inconsistencies),
         parse buf = inr items ->
         inconsistenciesOf (flat_map (fun i => List.map metricOfItem i) items)
         = Some inc ->
         thrown (generateHighlightedPDF load write buf
                   (flat_map (fun i => List.map metricOfItem i) items) inc)
         <> None
         \/ thrown (generateFontTypePDF load write toBase64 buf
                      (flat_map (fun i => List.map metricOfItem i) items))
            <> None ->
         thrown (analyzePDF parse load write toBase64 now buf)
         = Some (Error "Failed to analyze PDF document"))
  /\ (forall (ms : list Metric) (inc : Inconsistencies) (err : JsError),
         thrown (generateHighlightedPDF load write buf ms inc) = Some err ->
         err = Error "Failed to generate highlighted PDF")
  /\ (forall (ms : list Metric) (err : JsError),
         thrown (generateFontTypePDF load write toBase64 buf ms) = Some err ->
         err = Error "Failed to generate font type PDF")
  /\ (forall err : JsError,
         thrown (analyzePDF parse load write toBase64 now buf) = Some err ->
         err = Error "Failed to analyze PDF document").
Proof.
  split; [|split; [|split; [|split; [|split]]]].
  - intros. now apply generateHighlightedPDF_rejected with (pages := pages).
  - intros. now apply generateFontTypePDF_rejected with (pages := pages) (plan := plan).
  - intros. now apply analyzePDF_overlay_failure with (items := items) (inc := inc).
  - intros ms inc err. apply thrown_rethrow.
  - intros ms err. apply thrown_rethrow.
  - intro err. apply thrown_rethrow.
Qed.

(** A writer that rejects the plan with [rejection]: what reaches the caller
    of the highlighting generator, and of [analyzePDF], does not carry it. *)
Lemma overlay_failure_loses_cause :
  rejectingWriter [] (highlightedPlan [800%Q] [] noIssues) = inl rejection
  /\ thrown (generateHighlightedPDF onePage rejectingWriter [] [] noIssues)
     = Some (Error "Failed to generate highlighted PDF")
  /\ ~ carriesCause rejection (Error "Failed to generate highlighted PDF")
  /\ thrown (generateFontTypePDF onePage rejectingWriter noEncoding [] [])
     = Some (Error "Failed to generate font type PDF")
  /\ ~ carriesCause rejection (Error "Failed to generate font type PDF")
  /\ thrown (analyzePDF noText onePage rejectingWriter noEncoding "" [])
     = Some (Error "Failed to analyze PDF document")
  /\ ~ carriesCause rejection (Error "Failed to analyze PDF document").
Proof.
  repeat split; try reflexivity; intros [H|[]]; discriminate H.
Qed.

Lemma overlay_failure_rethrown_witness :
  generateHighlightedPDF onePage rejectingWriter [] [] noIssues =
  ([("Error generating highlighted PDF:", rejection)],
   inl (Error "Failed to generate highlighted PDF"))
  /\ thrown (analyzePDF noText onePage rejectingWriter noEncoding "" [])
     = Some (Error "Failed to analyze PDF document").
Proof.
  destruct (overlay_failure_rethrown_without_cause
              noText onePage rejectingWriter noEncoding "" [])
    as [H1 [_ [H3 _]]].
  split.
  - apply (H1 [800%Q] [] noIssues rejection); [reflexivity | discriminate | reflexivity].
  - apply (H3 [[]] noIssues); [reflexivity | reflexivity |].
    left. discriminate.
Defined.

(** ** The y axis *)

Lemma fontTypePlan_placed (pages : list Q) (ms : list Metric) (plan : list DrawOp) :
  fontTypePlan pages ms = Some plan ->
  exists rects,
    plan = rects ++ fontTypeLegend (fontColorsOf ms) /\
    forall op, In op rects ->
               exists m, In m ms /\ placedFor pages (position m) op.
Proof.
  unfold fontTypePlan.
  destruct (fontTypeLoop pages (fontColorsOf ms) ms []) as [drawn|] eqn:E;
    [|discriminate].
  intro X. inversion X; subst.
  destruct (fontTypeLoop_placed _ _ _ _ _ E) as [rects [-> Hr]].
  exists rects. split; [reflexivity | exact Hr].
Qed.

(** C8, as amended.  Extraction keeps the y of the parser: the position of
    a run is the translation of the item's transform, unchanged.  The
    overlay does not: every rectangle drawn for a run or for a spacing issue
    is placed at the height of its page minus the y of the position, so of
    two positions of one page the one with the larger y is drawn at the
    smaller y. *)
Theorem y_kept_by_extraction_mirrored_by_overlay :
  (forall item : Item.t,
      position (metricOfItem item)
      = {| Position.x := t4 (Item.transform item);
           Position.y := t5 (Item.transform item) |})
  /\ (forall (parse : Bytes -> JsError + list (list Item.t)) (buf : Bytes)
             (items : list (list Item.t)),
         parse buf = inr items ->
         extractFontMetrics parse buf
         = ([], inr (flat_map (fun i => List.map metricOfItem i) items)))
  /\ (forall (pages : list Q) (ms : list Metric) (inc : Inconsistencies)
             (op : DrawOp),
         In op (highlightedRects pages ms inc) ->
         (exists m, In m ms /\ placedFor pages (position m) op)
         \/ (exists issue pos,
                In issue (incSpacing inc)
                /\ issuePosition issue = Some pos
                /\ placedFor pages pos op))
  /\ (forall (pages : list Q) (ms : list Metric) (plan : list DrawOp),
         fontTypePlan pages ms = Some plan ->
         exists rects,
           plan = rects ++ fontTypeLegend (fontColorsOf ms) /\
           forall op, In op rects ->
                      exists m, In m ms /\ placedFor pages (position m) op)
  /\ (forall (pages : list Q) (pos1 pos2 : Position.t) (op1 op2 : DrawOp)
             (i : nat) (H1 H2 : Q),
         pageFor pages (Position.y pos1) = Some (i, H1) ->
         pageFor pages (Position.y pos2) = Some (i, H2) ->
         placedFor pages pos1 op1 -> placedFor pages pos2 op2 ->
         (Position.y pos1 < Position.y pos2)%Q ->
         exists y1 y2 : Q,
           rectY op1 = Some y1 /\ rectY op2 = Some y2 /\ (y2 < y1)%Q).
Proof.
  split; [reflexivity|].
  split; [intros parse buf items P; unfold extractFontMetrics;
          now rewrite P, bind_await_inr|].
  split; [exact highlightedRects_placed|].
  split; [exact fontTypePlan_placed|].
  exact placedFor_reverses.
Qed.

(** Two runs of a page 800 high, at y 100 and y 200: their rectangles are
    drawn at y 700 and y 600, in both overlays. *)
Lemma overlay_mirrors_y :
  Position.y (position lowRun) = 100%Q /\ Position.y (position highRun) = 200%Q
  /\ List.map rectY
       (highlightMetric [800%Q] (colorOf "fontSize") lowRun
        ++ highlightMetric [800%Q] (colorOf "fontSize") highRun)
     = [Some 700%Q; Some 600%Q]
  /\ option_map (fun plan => List.map rectY (firstn 2 plan))
                (fontTypePlan [800%Q] [lowRun; highRun])
     = Some [Some 700%Q; Some 600%Q]
  /\ ~ (700 == Position.y (position lowRun))%Q
  /\ ~ (600 == Position.y (position highRun))%Q.
Proof.
  repeat split; try reflexivity; intro H; discriminate H.
Qed.

Lemma y_mirrored_witness :
  exists y1 y2 : Q,
    rectY (drawRectangle 0 0 700 10 10 (colorOf "fontSize") 0.3) = Some y1
    /\ rectY (drawRectangle 0 0 600 10 10 (colorOf "fontSize") 0.3) = Some y2
    /\ (y2 < y1)%Q.
Proof.
  destruct y_kept_by_extraction_mirrored_by_overlay as [_ [_ [_ [_ H]]]].
  apply (H [800%Q] (position lowRun) (position highRun) _ _ 0%nat 800%Q 800%Q).
  - reflexivity.
  - reflexivity.
  - exists 0%nat, 800%Q, 10%Q, 10%Q, (colorOf "fontSize"), 0.3%Q.
    repeat split.
  - exists 0%nat, 800%Q, 10%Q, 10%Q, (colorOf "fontSize"), 0.3%Q.
    repeat split.
  - reflexivity.
Defined.

(** ** The theorems at the fixtures of the repository *)

Lemma font_family_detector_witness :
  determineContext (mockMetric "Arial" 12 0)
  = determineContext (mockMetric "Times" 12 20)
  /\ exists fonts : list string,
      NoDup fonts
      /\ issuesFor body (analyzeFontFamilyConsistency familyFixture)
         = (if (List.length fonts <=? 2)%nat then []
            else [familyIssue body fonts]).
Proof.
  destruct (font_family_detector_per_context familyFixture body)
    as [H1 [fonts [ND [_ [E _]]]]].
  split.
  - apply H1. reflexivity.
  - exists fonts. split; assumption.
Defined.


Lemma spacing_detector_witness :
  pairEmit (mockMetric "Arial" 12 0, mockMetric "Arial" 12 50)
  = [spacingIssue (mockMetric "Arial" 12 50)
       (calculateSpacing (mockMetric "Arial" 12 0) (mockMetric "Arial" 12 50))].
Proof.
  destruct (spacing_detector_adjacent_pairs spacingFixture) as [_ H].
  destruct (H (mockMetric "Arial" 12 0) (mockMetric "Arial" 12 50))
    as [_ [_ [_ [H4 _]]]].
  apply H4. right. reflexivity.
Defined.


(** The spacing the detector compares with the bounds is the computed one:
    the distance from the right edge of [tightPrev] to [tightNext] lies
    between 0.1 and 20, the computed spacing falls below the double 0.1,
    and the pair is reported. *)
Lemma spacing_is_computed :
  (1 # 100 <= spacingSquared tightPrev tightNext)%Q
  /\ (literal 0.1 * literal 0.1 <= spacingSquared tightPrev tightNext)%Q
  /\ (spacingSquared tightPrev tightNext <= 400)%Q
  /\ Double.ltb (calculateSpacing tightPrev tightNext) MIN_NORMAL_SPACING
     = true
  /\ analyzeSpacingConsistency [tightPrev; tightNext]
     = [spacingIssue tightNext (calculateSpacing tightPrev tightNext)].
Proof.
  split; [vm_compute; discriminate|].
  split; [vm_compute; discriminate|].
  split; [vm_compute; discriminate|].
  split; vm_compute; reflexivity.
Qed.

(** The page index is the floor of the computed quotient: for a position
    at 2525.7599999999998 on pages 841.92 high the quotient rounds up to 3,
    the page index is 3 and not 2, and a document of three pages gets no
    rectangle for it. *)
Lemma page_index_is_computed :
  pageIndexOf (literal 2525.7599999999998) (literal 841.92) = Some 3%Z
  /\ Qfloor (literal 2525.7599999999998 / literal 841.92) = 2%Z
  /\ pageFor [literal 841.92; literal 841.92; literal 841.92]
             (literal 2525.7599999999998) = None.
Proof. repeat split; vm_compute; reflexivity. Qed.

Lemma out_of_range_witness :
  highlightMetric [800%Q] (colorOf "fontFamily") farRun = [].
Proof.
  destruct out_of_range_positions_are_skipped as [_ [_ H]].
  destruct (H [800%Q] 900%Q) as [H1 _].
  - unfold pageIndexOutOfRange.
    change (pageIndexOf 900 (nth 0 [800%Q] 0%Q)) with (Some 1%Z).
    right. simpl. lia.
  - apply H1. reflexivity.
Defined.

(** The font-family test of the repository: one issue, three families. *)
Lemma family_fixture_reported :
  analyzeFontFamilyConsistency familyFixture
  = [familyIssue body ["Arial"; "Times"; "Helvetica"]].
Proof. reflexivity. Qed.

(** The spacing test of the repository: the gap of 40 after the first run
    is reported, and so is the third run, which starts exactly where the
    second ends. *)
Lemma spacing_fixture_reported :
  List.map issuePosition (analyzeSpacingConsistency spacingFixture)
  = [ Some {| Position.x := 50; Position.y := 0 |};
      Some {| Position.x := 60; Position.y := 0 |} ].
Proof.
  vm_compute. reflexivity.
Qed.

(* ================================================================== *)
(** * Further properties of the code *)

(** ** The pipeline as a whole *)

Lemma inconsistenciesOf_total (ms : list Metric) :
  exists sizeIssues : list Issue,
    analyzeFontSizeConsistency ms = Some sizeIssues /\
    inconsistenciesOf ms =
    Some {| incFontFamily :=
              IssueObject (analyzeFontFamilyConsistency ms) (inventoryOf ms);
            incFontSize := sizeIssues;
            incSpacing := analyzeSpacingConsistency ms |}.
Proof.
  unfold inconsistenciesOf. rewrite analyzeFontSizeConsistency_flat_map.
  eexists. split; reflexivity.
Qed.

Lemma generateHighlightedPDF_accepted
      (load : Bytes -> JsError + list Q)
      (write : Bytes -> list DrawOp -> JsError + Bytes)
      (buf : Bytes) (ms : list Metric) (inc : Inconsistencies)
      (pages : list Q) (saved : Bytes) :
  load buf = inr pages -> pages <> [] ->
  write buf (highlightedPlan pages ms inc) = inr saved ->
  generateHighlightedPDF load write buf ms inc = ([], inr saved).
Proof.
  intros L NE W. unfold generateHighlightedPDF. rewrite tryCatch_rethrow.
  rewrite L, bind_await_inr. destruct pages; [congruence|].
  unfold await. now rewrite W.
Qed.

Lemma generateFontTypePDF_accepted
      (load : Bytes -> JsError + list Q)
      (write : Bytes -> list DrawOp -> JsError + Bytes)
      (toBase64 : Bytes -> string)
      (buf : Bytes) (ms : list Metric) (pages : list Q)
      (plan : list DrawOp) (saved : Bytes) :
  load buf = inr pages -> pages <> [] ->
  fontTypePlan pages ms = Some plan ->
  write buf plan = inr saved ->
  generateFontTypePDF load write toBase64 buf ms = ([], inr (toBase64 saved)).
Proof.
  intros L NE P W. unfold generateFontTypePDF. rewrite tryCatch_rethrow.
  rewrite L, bind_await_inr. destruct pages; [congruence|].
  rewrite P. cbn [orTypeError]. rewrite bind_ret, W, bind_await_inr.
  reflexivity.
Qed.

(** X1.  When the parser and the loader answer, the document has a page
    and the writer accepts the two plans, [analyzePDF] logs nothing and
    returns the report of the three detectors together with the two encoded
    documents: the detectors and the report never fail on their own. *)
Theorem analyzePDF_succeeds
        (parse : Bytes -> JsError + list (list Item.t))
        (load : Bytes -> JsError + list Q)
        (write : Bytes -> list DrawOp -> JsError + Bytes)
        (toBase64 : Bytes -> string) (now : string) (buf : Bytes)
        (items : list (list Item.t)) (pages : list Q) :
  parse buf = inr items -> load buf = inr pages -> pages <> [] ->
  exists (inc : Inconsistencies) (r : Report) (plan : list DrawOp),
    inconsistenciesOf (flat_map (fun i => List.map metricOfItem i) items)
    = Some inc
    /\ generateReport now inc = Some r
    /\ fontTypePlan pages (flat_map (fun i => List.map metricOfItem i) items)
       = Some plan
    /\ forall saved1 saved2 : Bytes,
        write buf
          (highlightedPlan pages
             (flat_map (fun i => List.map metricOfItem i) items) inc)
        = inr saved1 ->
        write buf plan = inr saved2 ->
        analyzePDF parse load write toBase64 now buf
        = ([], inr {| report := r;
                      highlightedPdf := toBase64 saved1;
                      fontTypePdf := toBase64 saved2 |}).
Proof.
  intros P L NE.
  set (ms := flat_map (fun i => List.map metricOfItem i) items).
  destruct (inconsistenciesOf_total ms) as [sizeIssues [_ I]].
  destruct (fontTypePlan_total pages ms) as [plan FP].
  eexists. eexists. exists plan.
  split; [exact I|]. split; [reflexivity|]. split; [exact FP|].
  intros saved1 saved2 W1 W2.
  unfold analyzePDF. rewrite tryCatch_rethrow.
  unfold extractFontMetrics. rewrite P, bind_await_inr, bind_ret.
  fold ms. rewrite I. cbn [orTypeError]. rewrite bind_ret.
  cbn [generateReport incFontFamily orTypeError]. rewrite bind_ret.
  rewrite (generateHighlightedPDF_accepted load write buf ms _ pages saved1 L NE W1).
  rewrite (generateFontTypePDF_accepted load write toBase64 buf ms pages plan
             saved2 L NE FP W2).
  reflexivity.
Qed.

Lemma analyzePDF_succeeds_witness :
  exists a : Analysis,
    analyzePDF noText onePage (fun _ _ => inr []) noEncoding "" [] = ([], inr a)
    /\ suspicious (report a) = false.
Proof.
  destruct (analyzePDF_succeeds noText onePage (fun _ _ => inr []) noEncoding
              "" [] [[]] [800%Q])
    as [inc [r [plan [I [G [_ H]]]]]];
    [reflexivity | reflexivity | discriminate |].
  exists {| report := r; highlightedPdf := noEncoding [];
            fontTypePdf := noEncoding [] |}.
  split.
  - apply (H [] []); reflexivity.
  - cbn in I. inversion I; subst inc. cbn in G. inversion G. reflexivity.
Defined.

(** X2.  When the parser rejects the document, [analyzePDF] logs that
    rejection once and throws its fixed error; neither the loader nor the
    writer has any part in the outcome. *)
Theorem analyzePDF_parse_failure
        (parse : Bytes -> JsError + list (list Item.t))
        (load : Bytes -> JsError + list Q)
        (write : Bytes -> list DrawOp -> JsError + Bytes)
        (toBase64 : Bytes -> string) (now : string) (buf : Bytes)
        (e : JsError) :
  parse buf = inl e ->
  analyzePDF parse load write toBase64 now buf
  = ([("Error analyzing PDF:", e)],
     inl (Error "Failed to analyze PDF document")).
Proof.
  intro P. unfold analyzePDF. rewrite tryCatch_rethrow.
  unfold extractFontMetrics, await, bind. now rewrite P.
Qed.

Lemma analyzePDF_parse_failure_witness :
  analyzePDF (fun _ => inl rejection) onePage rejectingWriter noEncoding "" []
  = ([("Error analyzing PDF:", rejection)],
     inl (Error "Failed to analyze PDF document")).
Proof.
  apply analyzePDF_parse_failure. reflexivity.
Defined.

Lemma analyzePDF_throws_fixed
      (parse : Bytes -> JsError + list (list Item.t))
      (load : Bytes -> JsError + list Q)
      (write : Bytes -> list DrawOp -> JsError + Bytes)
      (toBase64 : Bytes -> string) (now : string) (buf : Bytes)
      (l : list (string * JsError)) (err : JsError) :
  analyzePDF parse load write toBase64 now buf = (l, inl err) ->
  err = Error "Failed to analyze PDF document".
Proof.
  unfold analyzePDF. rewrite tryCatch_rethrow.
  match goal with |- match ?m with _ => _ end = _ -> _ =>
    destruct m as [l' [e|a]] end; intro E; inversion E; reflexivity.
Qed.

(** X3.  A document the loader cannot open, or one without any page, makes
    both overlay generators log one line and throw their fixed error,
    whatever there is to highlight and whatever the writer would answer. *)
Theorem generators_need_a_page
        (load : Bytes -> JsError + list Q)
        (write : Bytes -> list DrawOp -> JsError + Bytes)
        (toBase64 : Bytes -> string) (buf : Bytes)
        (ms : list Metric) (inc : Inconsistencies) :
  (forall e : JsError,
      load buf = inl e ->
      generateHighlightedPDF load write buf ms inc
      = ([("Error generating highlighted PDF:", e)],
         inl (Error "Failed to generate highlighted PDF"))
      /\ generateFontTypePDF load write toBase64 buf ms
         = ([("Error generating font type PDF:", e)],
            inl (Error "Failed to generate font type PDF")))
  /\ (load buf = inr [] ->
      snd (generateHighlightedPDF load write buf ms inc)
      = inl (Error "Failed to generate highlighted PDF")
      /\ List.map fst (fst (generateHighlightedPDF load write buf ms inc))
         = ["Error generating highlighted PDF:"]
      /\ snd (generateFontTypePDF load write toBase64 buf ms)
         = inl (Error "Failed to generate font type PDF")
      /\ List.map fst (fst (generateFontTypePDF load write toBase64 buf ms))
         = ["Error generating font type PDF:"]).
Proof.
  split.
  - intros e L. unfold generateHighlightedPDF, generateFontTypePDF.
    rewrite !tryCatch_rethrow. unfold await, bind. now rewrite L.
  - intro L. unfold generateHighlightedPDF, generateFontTypePDF.
    rewrite !tryCatch_rethrow. unfold await, bind. rewrite L.
    repeat split.
Qed.

Lemma generators_need_a_page_witness :
  snd (generateHighlightedPDF (fun _ => inr []) rejectingWriter [] [] noIssues)
  = inl (Error "Failed to generate highlighted PDF").
Proof.
  destruct (generators_need_a_page (fun _ => inr []) rejectingWriter
              noEncoding [] [] noIssues) as [_ H].
  destruct H as [H _]; [reflexivity | exact H].
Defined.

(** ** The request handler *)

Section HandlerFacts.
Variable parse : Bytes -> JsError + list (list Item.t).
Variable load : Bytes -> JsError + list Q.
Variable write : Bytes -> list DrawOp -> JsError + Bytes.
Variable toBase64 : Bytes -> string.
Variable now : string.

Local Abbreviation route := (analyzeRoute parse load write toBase64 now).
Local Abbreviation analyze := (analyzePDF parse load write toBase64 now).

Lemma analyzeRoute_cases (file : option UploadedFile) :
  (file = None
   /\ route file
      = ([], {| status := 400; json := ErrorBody "No PDF file provided" |}))
  \/ (exists f, file = Some f /\ includes (mimetype f) "pdf" = false
                /\ route file
                   = ([], {| status := 400;
                             json := ErrorBody "File must be a PDF" |}))
  \/ (exists f l a, file = Some f /\ includes (mimetype f) "pdf" = true
                    /\ analyze (buffer f) = (l, inr a)
                    /\ route file
                       = (l, {| status := 200;
                                json := AnalysisBody (report a)
                                          (highlightedPdf a)
                                          (fontTypePdf a) |}))
  \/ (exists f l, file = Some f /\ includes (mimetype f) "pdf" = true
                  /\ analyze (buffer f)
                     = (l, inl (Error "Failed to analyze PDF document"))
                  /\ route file
                     = (l ++ [("Error processing request:",
                               Error "Failed to analyze PDF document")],
                        {| status := 500;
                           json := ErrorBody "Failed to analyze PDF" |})).
Proof.
  destruct file as [f|]; [|left; split; reflexivity].
  right. unfold analyzeRoute.
  destruct (includes (mimetype f) "pdf") eqn:I; cbn [negb].
  - right. destruct (analyze (buffer f)) as [l [err|a]] eqn:A.
    + right. exists f, l.
      assert (X := analyzePDF_throws_fixed _ _ _ _ _ _ _ _ A). subst err.
      repeat split; try assumption; reflexivity.
    + left. exists f, l, a. repeat split; try assumption; reflexivity.
  - left. exists f. repeat split. exact I.
Qed.

End HandlerFacts.

(** X4.  The route answers 200 exactly when a file was uploaded, its MIME
    type includes [pdf] and the analysis does not throw; it answers 400,
    logging nothing, exactly when the file is missing or of another type;
    otherwise it answers 500 with the body [Failed to analyze PDF], the
    line it logs carrying the fixed error of [analyzePDF]. *)
Theorem analyzeRoute_status
        (parse : Bytes -> JsError + list (list Item.t))
        (load : Bytes -> JsError + list Q)
        (write : Bytes -> list DrawOp -> JsError + Bytes)
        (toBase64 : Bytes -> string) (now : string)
        (file : option UploadedFile) :
  let log := fst (analyzeRoute parse load write toBase64 now file) in
  let response := snd (analyzeRoute parse load write toBase64 now file) in
  (status response = 200%nat <->
   exists f, file = Some f /\ includes (mimetype f) "pdf" = true
             /\ thrown (analyzePDF parse load write toBase64 now (buffer f))
                = None)
  /\ (status response = 400%nat <->
      file = None
      \/ exists f, file = Some f /\ includes (mimetype f) "pdf" = false)
  /\ (status response = 400%nat -> log = [])
  /\ (status response <> 200%nat -> status response <> 400%nat ->
      response = {| status := 500; json := ErrorBody "Failed to analyze PDF" |}
      /\ exists l,
          log = l ++ [("Error processing request:",
                       Error "Failed to analyze PDF document")]).
Proof.
  intros log response. subst log response.
  destruct (analyzeRoute_cases parse load write toBase64 now file)
    as [[F R]|[[f [F [I R]]]|[[f [l [a [F [I [A R]]]]]]|[f [l [F [I [A R]]]]]]]];
    rewrite R; cbn [fst snd status]; subst file;
    (split; [|split; [|split]]).
  - split; [discriminate | intros [f [F _]]; discriminate].
  - split; [intros _; now left | reflexivity].
  - reflexivity.
  - intros _ H. now contradiction H.
  - split; [discriminate|].
    intros [f' [F [I' _]]]. inversion F; subst. congruence.
  - split; [|reflexivity]. intros _. right. now exists f.
  - reflexivity.
  - intros _ H. now contradiction H.
  - split; [|reflexivity]. intros _. exists f.
    repeat split; [assumption|]. unfold thrown. now rewrite A.
  - split; [discriminate|].
    intros [F|[f' [F I']]]; [discriminate|]. inversion F; subst. congruence.
  - discriminate.
  - intro H. now contradiction H.
  - split; [discriminate|].
    intros [f' [F [_ T]]]. inversion F; subst.
    unfold thrown in T. rewrite A in T. discriminate.
  - split; [discriminate|].
    intros [F|[f' [F I']]]; [discriminate|]. inversion F; subst. congruence.
  - discriminate.
  - intros _ _. split; [reflexivity | now exists l].
Qed.

Lemma analyzeRoute_status_witness :
  fst (analyzeRoute noText onePage rejectingWriter noEncoding "" None) = [].
Proof.
  destruct (analyzeRoute_status noText onePage rejectingWriter noEncoding ""
              None) as [_ [_ [H _]]].
  apply H. reflexivity.
Defined.

Lemma analyzeRouteStoring_plain
      (parse : Bytes -> JsError + list (list Item.t))
      (load : Bytes -> JsError + list Q)
      (write : Bytes -> list DrawOp -> JsError + Bytes)
      (toBase64 : Bytes -> string) (now : string)
      (writeFileSync : string -> string -> JsError + unit)
      (file : option UploadedFile) :
  let out :=
    analyzeRouteStoring parse load write toBase64 now writeFileSync file in
  let plain := analyzeRoute parse load write toBase64 now file in
  (status (snd out) = 200%nat ->
   (fst (fst out), snd out) = plain
   /\ exists a h ft,
       json (snd out) = AnalysisBody a h ft
       /\ snd (fst out) = [(outputFilePath, h); (outputFilePathFont, ft)])
  /\ (status (snd plain) <> 200%nat ->
      (fst (fst out), snd out) = plain /\ snd (fst out) = [])
  /\ (status (snd out) <> 200%nat ->
      (List.length (snd (fst out)) <= 1)%nat
      /\ (status (snd out) = 400%nat \/ status (snd out) = 500%nat))
  /\ ((forall p d, exists u, writeFileSync p d = inr u) ->
      (fst (fst out), snd out) = plain).
Proof.
  intros out plain. subst out plain.
  unfold analyzeRouteStoring, analyzeRoute.
  destruct file as [f|].
  - destruct (includes (mimetype f) "pdf"); cbn [negb].
    + destruct (analyzePDF parse load write toBase64 now (buffer f))
        as [l [err|a]].
      * cbn. split; [discriminate|]. split; [intros _; now split|].
        split; [intros _; split; [lia | now right] | reflexivity].
      * destruct (writeFileSync outputFilePath (highlightedPdf a))
          as [e1|u1] eqn:W1.
        { cbn. split; [discriminate|].
          split; [intro H; now contradiction H|].
          split; [intros _; split; [lia | now right]|].
          intro H. destruct (H outputFilePath (highlightedPdf a)) as [u E].
          congruence. }
        destruct (writeFileSync outputFilePathFont (fontTypePdf a))
          as [e2|u2] eqn:W2.
        { cbn. split; [discriminate|].
          split; [intro H; now contradiction H|].
          split; [intros _; split; [lia | now right]|].
          intro H. destruct (H outputFilePathFont (fontTypePdf a)) as [u E].
          congruence. }
        cbn. split; [intros _; split; [reflexivity|]; do 3 eexists;
                     split; reflexivity|].
        split; [intro H; now contradiction H|].
        split; [intro H; now contradiction H | reflexivity].
    + cbn. split; [discriminate|]. split; [intros _; now split|].
      split; [intros _; split; [lia | now left] | reflexivity].
  - cbn. split; [discriminate|]. split; [intros _; now split|].
    split; [intros _; split; [lia | now left] | reflexivity].
Qed.

Lemma analyzeRouteStoring_writes
      (parse : Bytes -> JsError + list (list Item.t))
      (load : Bytes -> JsError + list Q)
      (write : Bytes -> list DrawOp -> JsError + Bytes)
      (toBase64 : Bytes -> string) (now : string)
      (writeFileSync : string -> string -> JsError + unit)
      (file : option UploadedFile) :
  let out :=
    analyzeRouteStoring parse load write toBase64 now writeFileSync file in
  let plain := analyzeRoute parse load write toBase64 now file in
  (forall a h ft e,
      json (snd plain) = AnalysisBody a h ft ->
      writeFileSync outputFilePath h = inl e ->
      out = (fst plain ++ [("Error processing request:", e)], [],
             {| status := 500; json := ErrorBody "Failed to analyze PDF" |}))
  /\ (forall a h ft u e,
         json (snd plain) = AnalysisBody a h ft ->
         writeFileSync outputFilePath h = inr u ->
         writeFileSync outputFilePathFont ft = inl e ->
         out = (fst plain ++ [("Error processing request:", e)],
                [(outputFilePath, h)],
                {| status := 500;
                   json := ErrorBody "Failed to analyze PDF" |}))
  /\ (status (snd out) = 200%nat <->
      exists a h ft u u',
        json (snd plain) = AnalysisBody a h ft
        /\ writeFileSync outputFilePath h = inr u
        /\ writeFileSync outputFilePathFont ft = inr u').
Proof.
  intros out plain. subst out plain.
  unfold analyzeRouteStoring, analyzeRoute.
  destruct file as [f|];
    [destruct (includes (mimetype f) "pdf"); cbn [negb];
     [destruct (analyzePDF parse load write toBase64 now (buffer f))
        as [l [err|a]]|]|];
    cbn [snd fst json status];
    try (split; [intros ? ? ? ? J; discriminate J|];
         split; [intros ? ? ? ? ? J; discriminate J|];
         split; [discriminate | intros [? [? [? [? [? [J _]]]]]];
                                discriminate J]).
  split; [|split].
  - intros a0 h ft e J W. injection J as <- <- <-. now rewrite W.
  - intros a0 h ft u e J W1 W2. injection J as <- <- <-.
    rewrite W1, W2. reflexivity.
  - destruct (writeFileSync outputFilePath (highlightedPdf a))
      as [e1|u1] eqn:W1.
    + split; [discriminate|].
      intros [a0 [h [ft [u [u' [J [W _]]]]]]]. injection J as <- <- <-.
      congruence.
    + destruct (writeFileSync outputFilePathFont (fontTypePdf a))
        as [e2|u2] eqn:W2.
      * split; [discriminate|].
        intros [a0 [h [ft [u [u' [J [_ W]]]]]]]. injection J as <- <- <-.
        congruence.
      * split; [intros _ | reflexivity].
        exists (report a), (highlightedPdf a), (fontTypePdf a), u1, u2.
        now repeat split.
Qed.

(** X5.  The route that also stores the documents writes the highlighted
    document and then the font-type document exactly when it answers 200,
    and then logs and answers as the plain route does; when the plain route
    refuses or fails nothing is written.  When the analysis succeeds and
    the first write fails it writes nothing, logs the failure and answers
    500; when the second write fails it has written the first file only,
    logs the failure and answers 500.  It answers 200 exactly when the
    analysis and both writes succeed. *)
Theorem analyzeRouteStoring_files
        (parse : Bytes -> JsError + list (list Item.t))
        (load : Bytes -> JsError + list Q)
        (write : Bytes -> list DrawOp -> JsError + Bytes)
        (toBase64 : Bytes -> string) (now : string)
        (writeFileSync : string -> string -> JsError + unit)
        (file : option UploadedFile) :
  let out :=
    analyzeRouteStoring parse load write toBase64 now writeFileSync file in
  let plain := analyzeRoute parse load write toBase64 now file in
  (status (snd out) = 200%nat ->
   (fst (fst out), snd out) = plain
   /\ exists a h ft,
       json (snd out) = AnalysisBody a h ft
       /\ snd (fst out) = [(outputFilePath, h); (outputFilePathFont, ft)])
  /\ (status (snd plain) <> 200%nat ->
      (fst (fst out), snd out) = plain /\ snd (fst out) = [])
  /\ (status (snd out) <> 200%nat ->
      (List.length (snd (fst out)) <= 1)%nat
      /\ (status (snd out) = 400%nat \/ status (snd out) = 500%nat))
  /\ ((forall p d, exists u, writeFileSync p d = inr u) ->
      (fst (fst out), snd out) = plain)
  /\ (forall a h ft e,
         json (snd plain) = AnalysisBody a h ft ->
         writeFileSync outputFilePath h = inl e ->
         out = (fst plain ++ [("Error processing request:", e)], [],
                {| status := 500;
                   json := ErrorBody "Failed to analyze PDF" |}))
  /\ (forall a h ft u e,
         json (snd plain) = AnalysisBody a h ft ->
         writeFileSync outputFilePath h = inr u ->
         writeFileSync outputFilePathFont ft = inl e ->
         out = (fst plain ++ [("Error processing request:", e)],
                [(outputFilePath, h)],
                {| status := 500;
                   json := ErrorBody "Failed to analyze PDF" |}))
  /\ (status (snd out) = 200%nat <->
      exists a h ft u u',
        json (snd plain) = AnalysisBody a h ft
        /\ writeFileSync outputFilePath h = inr u
        /\ writeFileSync outputFilePathFont ft = inr u').
Proof.
  intros out plain.
  destruct (analyzeRouteStoring_plain parse load write toBase64 now
              writeFileSync file) as [H1 [H2 [H3 H4]]].
  exact (conj H1 (conj H2 (conj H3 (conj H4
           (analyzeRouteStoring_writes parse load write toBase64 now
              writeFileSync file))))).
Qed.

Lemma analyzeRouteStoring_files_witness :
  analyzeRouteStoring noText onePage (fun _ _ => inr []) noEncoding ""
    (fun _ _ => inl rejection)
    (Some {| mimetype := "application/pdf"; buffer := [] |})
  = ([("Error processing request:", rejection)], [],
     {| status := 500; json := ErrorBody "Failed to analyze PDF" |}).
Proof.
  destruct (analyzeRouteStoring_files noText onePage (fun _ _ => inr [])
              noEncoding "" (fun _ _ => inl rejection)
              (Some {| mimetype := "application/pdf"; buffer := [] |}))
    as [_ [_ [_ [_ [H _]]]]].
  erewrite H; reflexivity.
Defined.

(** ** The inventory of families *)

Lemma uniqueFontsOf_spec (ms : list Metric) :
  NoDup (uniqueFontsOf ms) /\
  forall f, In f (uniqueFontsOf ms) <-> exists m, In m ms /\ fontFamily m = f.
Proof.
  unfold uniqueFontsOf.
  assert (E : forall l s,
             fold_left (fun s f => JsSet.add f s) (List.map fontFamily l) s
             = fold_left (fun fonts m => JsSet.add (fontFamily m) fonts) l s).
  { induction l as [|a l IH]; simpl; intro s; [reflexivity | apply IH]. }
  rewrite E. destruct (families_fold ms [] (NoDup_nil _)) as [ND HIn].
  split; [exact ND|]. intro f. rewrite HIn. split.
  - intros [[]|H]. exact H.
  - intro H. now right.
Qed.

Lemma occurrencesOf_cons (f : string) (m : Metric) (ms : list Metric) :
  occurrencesOf f (m :: ms)
  = ((if String.eqb (fontFamily m) f then 1 else 0) + occurrencesOf f ms)%nat.
Proof.
  unfold occurrencesOf. simpl. now destruct (fontFamily m =? f).
Qed.

Lemma indicator_sum (x : string) (fs : list string) :
  NoDup fs -> In x fs ->
  list_sum (List.map (fun f => if String.eqb x f then 1%nat else 0%nat) fs)
  = 1%nat.
Proof.
  induction fs as [|a fs IH]; simpl; intros ND H; [destruct H|].
  inversion ND as [|? ? Ha ND']; subst.
  destruct (x =? a) eqn:E.
  - apply String.eqb_eq in E; subst a. f_equal.
    clear IH H ND ND'. induction fs as [|b fs IH]; simpl; [reflexivity|].
    destruct (x =? b) eqn:E.
    + apply String.eqb_eq in E; subst b. exfalso. apply Ha. now left.
    + apply IH. intro H. apply Ha. now right.
  - destruct H as [->|H]; [now rewrite String.eqb_refl in E|].
    now apply IH.
Qed.

Lemma occurrences_sum (fs : list string) (ms : list Metric) :
  NoDup fs -> (forall m, In m ms -> In (fontFamily m) fs) ->
  list_sum (List.map (fun f => occurrencesOf f ms) fs) = List.length ms.
Proof.
  intro ND. induction ms as [|m ms IH]; intro H.
  - induction fs as [|a fs IHf]; simpl; [reflexivity|].
    inversion ND; subst. now apply IHf.
  - assert (S : forall l,
               list_sum (List.map (fun f => occurrencesOf f (m :: ms)) l)
               = (list_sum (List.map (fun f => if String.eqb (fontFamily m) f
                                               then 1 else 0) l)
                  + list_sum (List.map (fun f => occurrencesOf f ms) l))%nat).
    { induction l as [|a l IHl]; simpl; [reflexivity|].
      rewrite IHl, occurrencesOf_cons. lia. }
    rewrite S, IH by (intros; apply H; now right).
    rewrite indicator_sum; [reflexivity | assumption | apply H; now left].
Qed.

Lemma occurrencesOf_pos (f : string) (ms : list Metric) :
  (exists m, In m ms /\ fontFamily m = f) -> (1 <= occurrencesOf f ms)%nat.
Proof.
  intros [m [Hm E]]. unfold occurrencesOf.
  assert (Hf : In m (filter (fun m => fontFamily m =? f) ms)).
  { apply filter_In. split; [assumption|]. subst f. apply String.eqb_refl. }
  destruct (filter _ ms); [destruct Hf | simpl; lia].
Qed.

(** X6.  The inventory of families [analyzePDF] puts in the report names
    every family of the run list exactly once, each with at least one
    occurrence, and the occurrences add up to the number of runs. *)
Theorem inventory_counts_every_run (metrics : list Metric) :
  (exists (issues sizeIssues spaceIssues : list Issue),
      inconsistenciesOf metrics
      = Some {| incFontFamily := IssueObject issues (inventoryOf metrics);
                incFontSize := sizeIssues;
                incSpacing := spaceIssues |})
  /\ NoDup (List.map name (inventoryOf metrics))
  /\ (forall f : string,
         In f (List.map name (inventoryOf metrics)) <->
         exists m, In m metrics /\ fontFamily m = f)
  /\ (forall fc : FontCount,
         In fc (inventoryOf metrics) ->
         (1 <= occurrences fc)%nat
         /\ occurrences fc = occurrencesOf (name fc) metrics)
  /\ list_sum (List.map occurrences (inventoryOf metrics))
     = List.length metrics.
Proof.
  destruct (uniqueFontsOf_spec metrics) as [ND HIn].
  assert (N : List.map name (inventoryOf metrics) = uniqueFontsOf metrics).
  { unfold inventoryOf. rewrite map_map. simpl. apply map_id. }
  split; [|split; [|split; [|split]]].
  - destruct (inconsistenciesOf_total metrics) as [sizeIssues [_ E]].
    do 3 eexists. exact E.
  - now rewrite N.
  - intro f. now rewrite N.
  - intros fc H. unfold inventoryOf in H. apply in_map_iff in H.
    destruct H as [f [<- Hf]]. simpl. split; [|reflexivity].
    apply occurrencesOf_pos. now apply HIn.
  - unfold inventoryOf. rewrite map_map. simpl.
    apply occurrences_sum; [assumption|].
    intros m Hm. apply HIn. now exists m.
Qed.

Lemma inventory_counts_witness :
  (1 <= occurrences {| name := "Times"; occurrences := 1 |})%nat.
Proof.
  destruct (inventory_counts_every_run familyFixture) as [_ [_ [_ [P _]]]].
  apply (P {| name := "Times"; occurrences := 1 |}).
  right. left. reflexivity.
Defined.

(** ** Run order *)

Lemma Permutation_filter_runs {A : Type} (p : A -> bool) (l l' : list A) :
  Permutation l l' -> Permutation (filter p l) (filter p l').
Proof.
  induction 1 as [|x l l' _ IH|x y l|l l' l'' _ IH1 _ IH2]; simpl.
  - constructor.
  - destruct (p x); [now constructor | assumption].
  - destruct (p x), (p y); try reflexivity. constructor.
  - now transitivity (filter p l').
Qed.

(** X7.  Whether the font-family detector reports a context does not
    depend on the order of the runs: on two orderings of the same runs it
    reports the same number of issues, none or one, for every context.  The
    font-size detector does depend on it: the five body runs of sizes 12.4,
    8.8, 10.2, 9.0 and 8.6 are reported in that order and not in the
    reverse order, the sums of doubles being rounded differently. *)
Theorem family_detector_ignores_run_order :
  (forall (metrics metrics' : list Metric) (c : Context),
      Permutation metrics metrics' ->
      List.length (issuesFor c (analyzeFontFamilyConsistency metrics))
      = List.length (issuesFor c (analyzeFontFamilyConsistency metrics')))
  /\ List.map determineContext orderedSizes = [body; body; body; body; body]
  /\ (exists issue : Issue,
         analyzeFontSizeConsistency orderedSizes = Some [issue])
  /\ analyzeFontSizeConsistency (rev orderedSizes) = Some [].
Proof.
  split; [|split; [|split; [eexists|]]; vm_compute; reflexivity].
  intros metrics metrics' c P.
  rewrite !family_issues_for. unfold familyEmit.
  assert (L : List.length (fontsOf c metrics)
              = List.length (fontsOf c metrics')).
  { apply Permutation_length.
    destruct (fontsOf_spec c metrics) as [ND1 I1].
    destruct (fontsOf_spec c metrics') as [ND2 I2].
    apply NoDup_Permutation; try assumption.
    intro f. rewrite I1, I2. split; intros [m [Hm H]]; exists m;
      (split; [|assumption]).
    - now apply (Permutation_in _ P).
    - now apply (Permutation_in _ (Permutation_sym P)). }
  rewrite L. now destruct (2 <? _)%nat.
Qed.

Lemma run_order_witness :
  List.length (issuesFor body (analyzeFontFamilyConsistency familyFixture))
  = List.length
      (issuesFor body (analyzeFontFamilyConsistency (rev familyFixture))).
Proof.
  destruct family_detector_ignores_run_order as [H _].
  apply (H familyFixture (rev familyFixture) body).
  apply Permutation_rev.
Defined.

(** ** More on the spacing detector *)

Lemma adjacentPairs_length (ms : list Metric) :
  List.length (adjacentPairs ms) = pred (List.length ms).
Proof.
  unfold adjacentPairs. rewrite length_combine.
  destruct ms as [|m ms]; [reflexivity|].
  cbn [tl List.length pred]. apply Nat.min_r. lia.
Qed.

Lemma adjacentPairs_snd (ms : list Metric) (prev current : Metric) :
  In (prev, current) (adjacentPairs ms) -> In current (tl ms).
Proof. unfold adjacentPairs. apply in_combine_r. Qed.

(** X8.  The spacing detector reports at most one issue per run after the
    first, so at most one issue fewer than there are runs, none for an empty
    or a one-run list; every issue is of severity [medium] and carries the
    position of a run other than the first. *)
Theorem spacing_issues_are_bounded (metrics : list Metric) :
  (List.length (analyzeSpacingConsistency metrics)
   <= pred (List.length metrics))%nat
  /\ forall i : Issue,
      In i (analyzeSpacingConsistency metrics) ->
      severity i = medium
      /\ exists current : Metric,
          In current (tl metrics)
          /\ issuePosition i = Some (position current).
Proof.
  rewrite analyzeSpacingConsistency_pairs. split.
  - rewrite <- adjacentPairs_length.
    induction (adjacentPairs metrics) as [|[p c] l IH]; [simpl; lia|].
    cbn [flat_map List.length]. rewrite length_app. unfold pairEmit at 1.
    destruct (isSpacingAbnormal _); cbn [List.length]; lia.
  - intros i H. apply in_flat_map in H. destruct H as [[p c] [Hp Hi]].
    unfold pairEmit in Hi. destruct (isSpacingAbnormal _); [|destruct Hi].
    destruct Hi as [<-|[]]. split; [reflexivity|].
    exists c. split; [|reflexivity]. now apply adjacentPairs_snd in Hp.
Qed.

Lemma spacing_issues_witness :
  exists current : Metric,
    In current (tl spacingFixture)
    /\ issuePosition
         (spacingIssue (mockMetric "Arial" 12 50)
            (calculateSpacing (mockMetric "Arial" 12 0)
                              (mockMetric "Arial" 12 50)))
       = Some (position current).
Proof.
  destruct (spacing_issues_are_bounded spacingFixture) as [_ P].
  apply P. vm_compute. left. reflexivity.
Defined.

(** X9.  A run that starts exactly where the computed right edge of its
    predecessor ends, on the same line, has the computed spacing 0 and is
    reported: runs that touch are flagged as abnormally spaced. *)
Theorem touching_runs_are_reported (prev current : Metric) (edge : Q) :
  Double.add (Double.Finite (Position.x (position prev)))
             (Double.Finite (width prev)) = Double.Finite edge ->
  (Position.x (position current) == edge)%Q ->
  (Position.y (position current) == Position.y (position prev))%Q ->
  calculateSpacing prev current = Double.Finite 0
  /\ pairEmit (prev, current) = [spacingIssue current (Double.Finite 0)].
Proof.
  intros He Hx Hy.
  assert (E : calculateSpacing prev current = Double.Finite 0).
  { unfold calculateSpacing. rewrite He.
    rewrite (deviation_zero _ _ Hx), (deviation_zero _ _ Hy).
    vm_compute. reflexivity. }
  split; [exact E|].
  assert (A : isSpacingAbnormal (Double.Finite 0) = true)
    by (vm_compute; reflexivity).
  unfold pairEmit. rewrite E, A. reflexivity.
Qed.

Lemma touching_runs_witness :
  pairEmit (mockMetric "Arial" 12 50, mockMetric "Arial" 12 60)
  = [spacingIssue (mockMetric "Arial" 12 60) (Double.Finite 0)].
Proof.
  apply (touching_runs_are_reported (mockMetric "Arial" 12 50)
                                    (mockMetric "Arial" 12 60) 60);
    vm_compute; reflexivity.
Defined.

(** ** More on the scoring engine *)

Lemma calculateSeverityScore_sum (inc : Inconsistencies) :
  (calculateSeverityScore inc ==
   0.4 * multiplierSum (issuesOf (incFontFamily inc))
   + 0.3 * multiplierSum (incFontSize inc)
   + 0.3 * multiplierSum (incSpacing inc))%Q.
Proof.
  unfold calculateSeverityScore, entries. cbn [fold_left].
  change (weights "fontFamily") with (Some 0.4%Q).
  change (weights "fontSize") with (Some 0.3%Q).
  change (weights "spacing") with (Some 0.3%Q).
  cbv beta iota zeta.
  replace (match incFontFamily inc with
           | IssueArray l => l
           | IssueObject l _ => l
           end) with (issuesOf (incFontFamily inc)) by reflexivity.
  rewrite !issueScore_sum. ring.
Qed.

Lemma nQ_succ (n : nat) : (nQ (S n) == nQ n + 1)%Q.
Proof.
  unfold nQ. now rewrite Nat2Z.inj_succ, <- Z.add_1_r, inject_Z_plus.
Qed.

Lemma nQ_add (a b : nat) : (nQ (a + b) == nQ a + nQ b)%Q.
Proof. unfold nQ. now rewrite Nat2Z.inj_add, inject_Z_plus. Qed.

Lemma nQ_nonneg (n : nat) : (0 <= nQ n)%Q.
Proof. unfold nQ, Qle. simpl. lia. Qed.

Lemma nQ_le (a b : nat) : (a <= b)%nat -> (nQ a <= nQ b)%Q.
Proof. intro H. unfold nQ. rewrite <- Zle_Qle. lia. Qed.

Lemma multiplierSum_bounds (l : list Issue) :
  (0.3 * nQ (List.length l) <= multiplierSum l <= nQ (List.length l))%Q.
Proof.
  unfold multiplierSum. induction l as [|i l IH].
  - change (nQ (List.length (@nil Issue))) with 0%Q.
    cbn [List.map Qsum fold_right]. lra.
  - cbn [List.map Qsum fold_right List.length]. fold (Qsum (List.map (fun i => severityMultiplier (severity i)) l)).
    rewrite nQ_succ.
    assert (B : (0.3 <= severityMultiplier (severity i) <= 1)%Q)
      by (destruct (severity i); simpl; lra).
    lra.
Qed.

Lemma multiplierSum_uniform (s : Severity) (l : list Issue) :
  (forall i, In i l -> severity i = s) ->
  (multiplierSum l == severityMultiplier s * nQ (List.length l))%Q.
Proof.
  unfold multiplierSum. induction l as [|i l IH]; intro H.
  - change (nQ (List.length (@nil Issue))) with 0%Q.
    cbn [List.map Qsum fold_right]. ring.
  - cbn [List.map Qsum fold_right List.length]. fold (Qsum (List.map (fun i => severityMultiplier (severity i)) l)).
    rewrite nQ_succ, (H i (or_introl eq_refl)), IH
      by (intros; apply H; now right).
    ring.
Qed.

Lemma family_issues_high (ms : list Metric) (i : Issue) :
  In i (analyzeFontFamilyConsistency ms) -> severity i = high.
Proof.
  rewrite analyzeFontFamilyConsistency_flat_map. intro H.
  apply in_flat_map in H. destruct H as [[k v] [_ H]].
  unfold familyEmit in H. destruct (2 <? _)%nat; [|destruct H].
  now destruct H as [<-|[]].
Qed.

Lemma size_issues_medium (ms : list Metric) (issues : list Issue) (i : Issue) :
  analyzeFontSizeConsistency ms = Some issues -> In i issues ->
  severity i = medium.
Proof.
  rewrite analyzeFontSizeConsistency_flat_map. intros E H.
  inversion E; subst; clear E.
  apply in_flat_map in H. destruct H as [[k v] [_ H]].
  unfold sizeEmit in H. destruct v; [destruct H|].
  destruct (Double.gtb _ _); [|destruct H]. now destruct H as [<-|[]].
Qed.

Lemma spacing_issues_medium (ms : list Metric) (i : Issue) :
  In i (analyzeSpacingConsistency ms) -> severity i = medium.
Proof.
  rewrite analyzeSpacingConsistency_pairs. intro H.
  apply in_flat_map in H. destruct H as [[p c] [_ H]].
  unfold pairEmit in H. destruct (isSpacingAbnormal _); [|destruct H].
  now destruct H as [<-|[]].
Qed.

Lemma severity_score_range (inc : Inconsistencies) :
  (0.09 * nQ (List.length (issuesOf (incFontFamily inc))
              + List.length (incFontSize inc)
              + List.length (incSpacing inc))
   <= calculateSeverityScore inc
   <= 0.4 * nQ (List.length (issuesOf (incFontFamily inc))
                + List.length (incFontSize inc)
                + List.length (incSpacing inc)))%Q.
Proof.
  rewrite calculateSeverityScore_sum, !nQ_add.
  assert (B1 := multiplierSum_bounds (issuesOf (incFontFamily inc))).
  assert (B2 := multiplierSum_bounds (incFontSize inc)).
  assert (B3 := multiplierSum_bounds (incSpacing inc)).
  assert (N1 := nQ_nonneg (List.length (issuesOf (incFontFamily inc)))).
  assert (N2 := nQ_nonneg (List.length (incFontSize inc))).
  assert (N3 := nQ_nonneg (List.length (incSpacing inc))).
  lra.
Qed.

(** X10.  The severity score lies between 0.09 and 0.4 times the number of
    issues, whatever their types and severities.  On the issues the three
    detectors produce it is 0.4 per font-family issue plus 0.18 per
    font-size or spacing issue. *)
Theorem severity_score_bounds :
  (forall inc : Inconsistencies,
      let total :=
        (List.length (issuesOf (incFontFamily inc))
         + List.length (incFontSize inc)
         + List.length (incSpacing inc))%nat in
      (0.09 * nQ total <= calculateSeverityScore inc <= 0.4 * nQ total)%Q)
  /\ (forall (metrics : list Metric) (inc : Inconsistencies),
         inconsistenciesOf metrics = Some inc ->
         (calculateSeverityScore inc ==
          0.4 * nQ (List.length (issuesOf (incFontFamily inc)))
          + 0.18 * nQ (List.length (incFontSize inc)
                       + List.length (incSpacing inc)))%Q).
Proof.
  split.
  - intros inc total. subst total. apply severity_score_range.
  - intros ms inc I.
    destruct (inconsistenciesOf_total ms) as [sizeIssues [S E]].
    rewrite E in I. inversion I; subst inc; clear I.
    rewrite calculateSeverityScore_sum.
    cbn [incFontFamily incFontSize incSpacing issuesOf].
    rewrite (multiplierSum_uniform high)
      by (intros; now apply family_issues_high with (ms := ms)).
    rewrite (multiplierSum_uniform medium sizeIssues)
      by (intros; now apply size_issues_medium with (ms := ms) (issues := sizeIssues)).
    rewrite (multiplierSum_uniform medium (analyzeSpacingConsistency ms))
      by (intros; now apply spacing_issues_medium with (ms := ms)).
    rewrite nQ_add. simpl severityMultiplier. ring.
Qed.

Lemma severity_score_witness :
  exists inc : Inconsistencies,
    inconsistenciesOf familyFixture = Some inc
    /\ (calculateSeverityScore inc ==
        0.4 * nQ (List.length (issuesOf (incFontFamily inc)))
        + 0.18 * nQ (List.length (incFontSize inc)
                     + List.length (incSpacing inc)))%Q.
Proof.
  destruct (inconsistenciesOf_total familyFixture) as [sizeIssues [_ E]].
  eexists. split; [exact E|].
  apply (proj2 severity_score_bounds familyFixture). exact E.
Defined.

Lemma tenth_le (s s' : Q) : (s <= s')%Q -> (s / 10 <= s' / 10)%Q.
Proof.
  intro H. unfold Qdiv. apply Qmult_le_compat_r; [assumption | discriminate].
Qed.

(** X11.  Confidence never rises with more issues or a higher severity
    score: it is antitone in both arguments. *)
Theorem confidence_is_antitone (n n' : nat) (s s' : Q) :
  (n <= n')%nat -> (s <= s')%Q ->
  (calculateConfidenceScore n' s' <= calculateConfidenceScore n s)%Q.
Proof.
  intros Hn Hs. unfold calculateConfidenceScore.
  apply Q.max_le_compat_l.
  assert (B : (Qmin 1 (Qmax 0 (1 - s' / 10)) <= Qmin 1 (Qmax 0 (1 - s / 10)))%Q).
  { apply Q.min_le_compat_l, Q.max_le_compat_l.
    assert (T := tenth_le s s' Hs).
    set (a := (s / 10)%Q) in *. set (b := (s' / 10)%Q) in *. lra. }
  assert (P : (Qmin 0.5 (inject_Z (Z.of_nat n) * 0.1)
               <= Qmin 0.5 (inject_Z (Z.of_nat n') * 0.1))%Q).
  { apply Q.min_le_compat_l.
    assert (L := nQ_le n n' Hn). unfold nQ in L. lra. }
  set (b := Qmin 1 (Qmax 0 (1 - s / 10))) in *.
  set (b' := Qmin 1 (Qmax 0 (1 - s' / 10))) in *.
  set (p := Qmin 0.5 (inject_Z (Z.of_nat n) * 0.1)) in *.
  set (p' := Qmin 0.5 (inject_Z (Z.of_nat n') * 0.1)) in *.
  lra.
Qed.

Lemma confidence_antitone_witness :
  (calculateConfidenceScore 3 1 <= calculateConfidenceScore 1 0)%Q.
Proof.
  apply confidence_is_antitone; [lia | discriminate].
Defined.

(** X12.  A report that is not suspicious has severity score 0 and
    confidence 1; a suspicious report has severity score at least 0.09 and
    confidence at most 0.9. *)
Theorem suspicion_bounds_score_and_confidence
        (now : string) (inc : Inconsistencies) (r : Report) :
  generateReport now inc = Some r ->
  (suspicious r = false ->
   (severityScore r == 0)%Q /\ (confidence r == 1)%Q)
  /\ (suspicious r = true ->
      (0.09 <= severityScore r)%Q /\ (confidence r <= 0.9)%Q).
Proof.
  intro E. unfold generateReport in E.
  destruct (incFontFamily inc) as [|issues fonts] eqn:S; [discriminate|].
  inversion E; subst; clear E.
  cbn [suspicious severityScore confidence]. rewrite S.
  assert (B := severity_score_range inc). rewrite S in B. cbn [issuesOf] in B.
  set (total := (List.length issues + List.length (incFontSize inc)
                 + List.length (incSpacing inc))%nat) in *.
  set (score := calculateSeverityScore inc) in *.
  split.
  - intro Z. apply Nat.ltb_ge in Z. assert (T0 : total = 0%nat) by lia.
    rewrite T0 in *. change (nQ 0) with 0%Q in B.
    assert (S0 : (score == 0)%Q) by lra.
    split; [exact S0|].
    unfold calculateConfidenceScore. rewrite S0. reflexivity.
  - intro P. apply Nat.ltb_lt in P.
    assert (T1 := nQ_le 1 total P). change (nQ 1) with 1%Q in T1.
    split; [lra|].
    unfold calculateConfidenceScore. apply Q.max_lub; [discriminate|].
    assert (B1 : (Qmin 1 (Qmax 0 (1 - score / 10)) <= 1)%Q) by apply Q.le_min_l.
    assert (P1 : (0.1 <= Qmin 0.5 (inject_Z (Z.of_nat total) * 0.1))%Q).
    { apply Q.min_glb; [discriminate|]. unfold nQ in T1. lra. }
    set (b := Qmin 1 (Qmax 0 (1 - score / 10))) in *.
    set (p := Qmin 0.5 (inject_Z (Z.of_nat total) * 0.1)) in *.
    lra.
Qed.

Lemma suspicion_bounds_witness :
  exists r : Report,
    generateReport "" noIssues = Some r
    /\ (severityScore r == 0)%Q /\ (confidence r == 1)%Q.
Proof.
  eexists. split; [reflexivity|].
  apply (suspicion_bounds_score_and_confidence "" noIssues);
    reflexivity.
Defined.

(** ** The size of a report *)

Lemma spacing_length_bound (ms : list Metric) :
  (List.length (analyzeSpacingConsistency ms) <= pred (List.length ms))%nat.
Proof.
  rewrite analyzeSpacingConsistency_pairs, <- adjacentPairs_length.
  induction (adjacentPairs ms) as [|[p c] l IH]; [simpl; lia|].
  cbn [flat_map List.length]. rewrite length_app. unfold pairEmit at 1.
  destruct (isSpacingAbnormal _); cbn [List.length]; lia.
Qed.

Lemma family_length_bound (ms : list Metric) :
  (List.length (analyzeFontFamilyConsistency ms) <= 3)%nat.
Proof.
  rewrite analyzeFontFamilyConsistency_flat_map.
  apply emitted_length; [|apply fontFamilyGroups_keys].
  intros k v. unfold familyEmit. destruct (2 <? _)%nat; simpl; lia.
Qed.

Lemma size_length_bound (ms : list Metric) (issues : list Issue) :
  analyzeFontSizeConsistency ms = Some issues ->
  (List.length issues <= 3)%nat.
Proof.
  rewrite analyzeFontSizeConsistency_flat_map. intro E. inversion E.
  apply emitted_length; [|apply fontSizeGroups_keys].
  intros k v. unfold sizeEmit. destruct v; [simpl; lia|].
  destruct (Double.gtb _ _); simpl; lia.
Qed.

(** X14.  The report [analyzePDF] builds for a run list counts at most 3
    font-family issues, at most 3 font-size issues and fewer spacing issues
    than there are runs: at most 5 issues more than runs in total, and none
    for the empty run list. *)
Theorem report_issue_counts_are_bounded (now : string) (metrics : list Metric) :
  exists (inc : Inconsistencies) (r : Report),
    inconsistenciesOf metrics = Some inc
    /\ generateReport now inc = Some r
    /\ (fontFamilyIssues (summary r) <= 3)%nat
    /\ (fontSizeIssues (summary r) <= 3)%nat
    /\ (spacingIssues (summary r) <= pred (List.length metrics))%nat
    /\ (totalIssues (summary r) <= List.length metrics + 5)%nat
    /\ (metrics = [] -> totalIssues (summary r) = 0%nat).
Proof.
  destruct (inconsistenciesOf_total metrics) as [sizeIssues [S E]].
  eexists. eexists. split; [exact E|]. split; [reflexivity|].
  cbn [summary fontFamilyIssues fontSizeIssues spacingIssues totalIssues
       incFontSize incSpacing].
  rewrite totalIssues_sum.
  cbn [issuesOf incFontFamily incFontSize incSpacing].
  assert (F := family_length_bound metrics).
  assert (Z := size_length_bound metrics sizeIssues S).
  assert (P := spacing_length_bound metrics).
  repeat split; try assumption.
  - destruct metrics as [|m ms]; [|simpl in *; lia].
    cbn in S. inversion S; subst. cbn. lia.
  - intros ->. cbn in S. inversion S; subst. reflexivity.
Qed.

Lemma report_issue_counts_witness :
  exists (inc : Inconsistencies) (r : Report),
    inconsistenciesOf [] = Some inc
    /\ generateReport "" inc = Some r
    /\ totalIssues (summary r) = 0%nat.
Proof.
  destruct (report_issue_counts_are_bounded "" [])
    as [inc [r [I [G [_ [_ [_ [_ H]]]]]]]].
  exists inc, r. repeat split; [exact I | exact G | now apply H].
Defined.

(** ** The colours of the font-type overlay *)

Lemma fontColors_fold_Permutation (metrics : list Metric) (total : nat)
      (l : list (nat * string)) (g : list (string * FontColor)) :
  NoDup (List.map snd l) ->
  (forall k, In k (List.map snd l) -> ~ In k (List.map fst g)) ->
  Permutation
    (fold_left
       (fun fontColors '(index, font) =>
          JsObject.set font
            {| color := hueColor index total;
               count := occurrencesOf font metrics |}
            fontColors)
       l g)
    (g ++ List.map (fontColorEntry metrics total) l).
Proof.
  revert g. induction l as [|[i f] l IH]; simpl; intros g ND H.
  - now rewrite app_nil_r.
  - inversion ND as [|? ? Hf ND']; subst.
    assert (F : JsMap.has String.eqb f g = false)
      by (apply has_false_keys, H; now left).
    set (e := {| color := hueColor i total; count := occurrencesOf f metrics |}).
    assert (P := objset_fresh_Permutation _ f e g F).
    rewrite IH.
    + rewrite P, <- app_assoc. reflexivity.
    + assumption.
    + intros k Hk X.
      apply (Permutation_in _ (Permutation_map fst P)) in X.
      rewrite map_app, in_app_iff in X. destruct X as [X|[<-|[]]].
      * apply (H k); [now right | assumption].
      * contradiction.
Qed.

Lemma fontColors_fold_append (metrics : list Metric) (total : nat)
      (l : list (nat * string)) (g : list (string * FontColor)) :
  NoDup (List.map snd l) ->
  (forall k, In k (List.map snd l) -> ~ In k (List.map fst g)) ->
  (forall k, In k (List.map snd l) -> JsObject.arrayIndex k = None) ->
  fold_left
    (fun fontColors '(index, font) =>
       JsObject.set font
         {| color := hueColor index total;
            count := occurrencesOf font metrics |}
         fontColors)
    l g
  = g ++ List.map (fontColorEntry metrics total) l.
Proof.
  revert g. induction l as [|[i f] l IH]; simpl; intros g ND H A.
  - now rewrite app_nil_r.
  - inversion ND as [|? ? Hf ND']; subst.
    rewrite objset_fresh_plain;
      [|apply has_false_keys, H; now left | apply A; now left].
    rewrite IH; [now rewrite <- app_assoc | assumption | |].
    + intros k Hk. rewrite map_app, in_app_iff. simpl.
      intros [X|[<-|[]]]; [|contradiction].
      apply (H k); [now right | assumption].
    + intros k Hk. apply A. now right.
Qed.

Lemma fontColorsOf_entries (ms : list Metric) :
  Permutation (fontColorsOf ms)
    (List.map (fontColorEntry ms (List.length (uniqueFontsOf ms)))
              (indexed (uniqueFontsOf ms))).
Proof.
  unfold fontColorsOf. cbv zeta.
  rewrite fontColors_fold_Permutation; [reflexivity | | intros k _ []].
  rewrite indexed_snd. apply uniqueFontsOf_spec.
Qed.

Lemma fontColorEntry_keys (ms : list Metric) (total : nat) (l : list string) :
  List.map fst (List.map (fontColorEntry ms total) (indexed l)) = l.
Proof.
  rewrite map_map.
  transitivity (List.map snd (indexed l)); [|apply indexed_snd].
  apply map_ext. now intros [i f].
Qed.

Lemma fontColorsOf_keys (ms : list Metric) :
  Permutation (List.map fst (fontColorsOf ms)) (uniqueFontsOf ms).
Proof.
  rewrite (Permutation_map fst (fontColorsOf_entries ms)).
  now rewrite fontColorEntry_keys.
Qed.

(** X15.  In the font-type overlay [fontColors] holds exactly one entry for
    every family of the document, with the colour of the rank at which the
    family is first met and its number of occurrences: the same families
    with the same counts as the inventory of the report.  The entries are
    in the order the families are first met when no family name is an
    array index; a name that is one is listed first, as for the families
    [b] and [1].  The legend leaves out a family named [__proto__]. *)
Theorem font_colours_cover_the_families :
  (forall metrics : list Metric,
      let expected :=
        List.map (fontColorEntry metrics (List.length (uniqueFontsOf metrics)))
                 (indexed (uniqueFontsOf metrics)) in
      Permutation (fontColorsOf metrics) expected
      /\ NoDup (List.map fst (fontColorsOf metrics))
      /\ Permutation
           (List.map (fun '(font, entry) =>
                        {| name := font; occurrences := count entry |})
                     (fontColorsOf metrics))
           (inventoryOf metrics)
      /\ ((forall font, In font (uniqueFontsOf metrics) ->
                        JsObject.arrayIndex font = None) ->
          fontColorsOf metrics = expected)
      /\ (forall (font : string) (entry : FontColor),
             In (font, entry) (JsObject.entries (fontColorsOf metrics)) <->
             In (font, entry) expected /\ font <> "__proto__"))
  /\ List.map fst
       (fontColorsOf [mockMetric "b" 12 0; mockMetric "1" 12 20])
     = ["1"; "b"]
  /\ List.map fst
       (JsObject.entries
          (fontColorsOf [mockMetric "__proto__" 12 0; mockMetric "b" 12 20]))
     = ["b"].
Proof.
  split; [|split; reflexivity].
  intros metrics expected. subst expected.
  assert (P := fontColorsOf_entries metrics).
  split; [exact P|]. split; [|split; [|split]].
  - apply (Permutation_NoDup (Permutation_sym (fontColorsOf_keys metrics))).
    apply uniqueFontsOf_spec.
  - eapply Permutation_trans; [apply Permutation_map, P|].
    match goal with
    | |- Permutation ?a ?b => replace a with b; [reflexivity | symmetry]
    end.
    unfold inventoryOf. rewrite map_map.
    transitivity
      (List.map
         (fun font =>
            {| name := font; occurrences := occurrencesOf font metrics |})
         (List.map snd (indexed (uniqueFontsOf metrics))));
      [|now rewrite indexed_snd].
    rewrite map_map. apply map_ext. now intros [i f].
  - intro A. unfold fontColorsOf. cbv zeta.
    rewrite fontColors_fold_append; [reflexivity | | intros k _ [] |].
    + rewrite indexed_snd. apply uniqueFontsOf_spec.
    + intros k Hk. rewrite indexed_snd in Hk. now apply A.
  - intros font entry. unfold JsObject.entries. rewrite filter_In.
    rewrite negb_true_iff, String.eqb_neq.
    split; intros [H N]; (split; [|exact N]).
    + now apply (Permutation_in _ P).
    + now apply (Permutation_in _ (Permutation_sym P)).
Qed.

Lemma font_colours_witness :
  fontColorsOf familyFixture
  = List.map (fontColorEntry familyFixture 3) (indexed (uniqueFontsOf familyFixture)).
Proof.
  destruct font_colours_cover_the_families as [H _].
  destruct (H familyFixture) as [_ [_ [_ [E _]]]].
  apply E. intros font [<-|[<-|[<-|[]]]]; reflexivity.
Defined.

Lemma hueColor_valid (index total : nat) :
  (0 <= red (hueColor index total) <= 1
   /\ 0 <= green (hueColor index total) <= 1
   /\ 0 <= blue (hueColor index total) <= 1)%R.
Proof.
  unfold hueColor. cbv zeta. cbn [red green blue].
  set (h := (INR index * 360 / INR total / 360)%R).
  assert (S1 := SIN_bound (h * PI * 2)).
  assert (S2 := SIN_bound ((h + 1 / 3) * PI * 2)).
  assert (S3 := SIN_bound ((h + 2 / 3) * PI * 2)).
  lra.
Qed.

(** X16.  Every colour the overlays draw with is a valid RGB triple: the
    three components of the colour of every family, and of the three issue
    colours, lie between 0 and 1. *)
Theorem overlay_colours_are_valid (metrics : list Metric) :
  (forall (font : string) (entry : FontColor),
      In (font, entry) (fontColorsOf metrics) ->
      (0 <= red (color entry) <= 1
       /\ 0 <= green (color entry) <= 1
       /\ 0 <= blue (color entry) <= 1)%R)
  /\ (forall (type : string) (c : Color),
         In (type, c) colors ->
         (0 <= red c <= 1 /\ 0 <= green c <= 1 /\ 0 <= blue c <= 1)%R).
Proof.
  split.
  - intros font entry H. rewrite fontColorsOf_entries in H.
    apply in_map_iff in H. destruct H as [[i f] [E _]].
    inversion E; subst. apply hueColor_valid.
  - intros type c [E|[E|[E|[]]]]; inversion E; subst; cbn [red green blue]; lra.
Qed.

Lemma overlay_colours_witness :
  (0 <= red (rgb 1 (1 / 2) 0) <= 1)%R.
Proof.
  destruct (overlay_colours_are_valid []) as [_ H].
  apply (H "fontSize" (rgb 1 (1 / 2) 0)). right. left. reflexivity.
Defined.

(** ** The shape of the plans *)

Lemma placedFor_page (pages : list Q) (pos : Position.t) (op : DrawOp) :
  placedFor pages pos op -> (pageOf op < List.length pages)%nat.
Proof.
  intros [i [H [w [h [c [o [N [_ ->]]]]]]]]. simpl.
  apply nth_error_Some. congruence.
Qed.

Lemma highlightedLegend_page (op : DrawOp) :
  In op highlightedLegend -> pageOf op = 0%nat.
Proof.
  unfold highlightedLegend, indexed, colors. cbn [List.length seq combine flat_map app].
  intro H. repeat (destruct H as [<-|H]; [reflexivity|]). destruct H.
Qed.

Lemma fontTypeLegend_page (fc : list (string * FontColor)) (op : DrawOp) :
  In op (fontTypeLegend fc) -> pageOf op = 0%nat.
Proof.
  unfold fontTypeLegend. intros [<-|H]; [reflexivity|].
  apply in_flat_map in H. destruct H as [[i [f e]] [_ H]].
  repeat (destruct H as [<-|H]; [reflexivity|]). destruct H.
Qed.

(** X17.  On a document with at least one page every drawing call of both
    overlays, rectangle or legend, is made on a page the document has. *)
Theorem plans_draw_on_existing_pages
        (pages : list Q) (ms : list Metric) (inc : Inconsistencies) :
  pages <> [] ->
  (forall op : DrawOp,
      In op (highlightedPlan pages ms inc) ->
      (pageOf op < List.length pages)%nat)
  /\ (forall (plan : list DrawOp) (op : DrawOp),
         fontTypePlan pages ms = Some plan -> In op plan ->
         (pageOf op < List.length pages)%nat).
Proof.
  intro NE.
  assert (P0 : (0 < List.length pages)%nat)
    by (destruct pages; [congruence | simpl; lia]).
  split.
  - intros op H. unfold highlightedPlan in H. apply in_app_iff in H.
    destruct H as [H|H].
    + apply highlightedRects_placed in H.
      destruct H as [[m [_ H]]|[issue [pos [_ [_ H]]]]];
        now apply placedFor_page in H.
    + now rewrite (highlightedLegend_page op H).
  - intros plan op E H.
    destruct (fontTypePlan_placed pages ms plan E) as [rects [-> Hr]].
    apply in_app_iff in H. destruct H as [H|H].
    + destruct (Hr op H) as [m [_ Hp]]. now apply placedFor_page in Hp.
    + now rewrite (fontTypeLegend_page _ op H).
Qed.

Lemma plans_pages_witness :
  (pageOf (drawText 0 "Suspicious Areas Legend:" legendX (legendY + 60) 12
                    None) < 1)%nat.
Proof.
  apply (plans_draw_on_existing_pages [800%Q] [lowRun; highRun] noIssues);
    [discriminate|].
  left. reflexivity.
Defined.

Lemma fontTypeLoop_length (pages : list Q) (fc : list (string * FontColor))
      (ms : list Metric) (drawn plan : list DrawOp) :
  fontTypeLoop pages fc ms drawn = Some plan ->
  List.length plan
  = (List.length drawn + List.length (filter (onDocument pages) ms))%nat.
Proof.
  revert drawn. induction ms as [|m ms IH]; simpl; intros drawn E.
  - inversion E. lia.
  - unfold onDocument at 1.
    destruct (pageFor pages (Position.y (position m))) as [[i h]|].
    + destruct (JsMap.get String.eqb (fontFamily m) fc); [|discriminate].
      rewrite (IH _ E), length_app. simpl. lia.
    + now apply IH.
Qed.

Lemma indexed_length {A : Type} (l : list A) :
  List.length (indexed l) = List.length l.
Proof.
  unfold indexed. rewrite length_combine, length_seq. apply Nat.min_id.
Qed.

Lemma fontTypeLegend_length (fc : list (string * FontColor)) :
  List.length (fontTypeLegend fc)
  = (1 + 2 * List.length (JsObject.entries fc))%nat.
Proof.
  unfold fontTypeLegend. cbn [List.length]. f_equal.
  rewrite <- (indexed_length (JsObject.entries fc)).
  induction (indexed (JsObject.entries fc)) as [|[i [f e]] l IH];
    [reflexivity|].
  cbn [flat_map List.length app]. rewrite IH. lia.
Qed.

(** X18.  The font-type overlay draws one rectangle for every run that
    falls on a page of the document, in input order, and then a legend of
    one title, and one swatch and one label for every family of the
    document other than [__proto__], whether its runs were drawn or not. *)
Theorem font_type_plan_size
        (pages : list Q) (ms : list Metric) (plan : list DrawOp) :
  fontTypePlan pages ms = Some plan ->
  exists rects : list DrawOp,
    plan = rects ++ fontTypeLegend (fontColorsOf ms)
    /\ List.length rects = List.length (filter (onDocument pages) ms)
    /\ List.length (fontTypeLegend (fontColorsOf ms))
       = (1 + 2 * List.length
                    (filter (fun font => negb (font =? "__proto__")%string)
                            (uniqueFontsOf ms)))%nat.
Proof.
  unfold fontTypePlan.
  destruct (fontTypeLoop pages (fontColorsOf ms) ms []) as [drawn|] eqn:E;
    [|discriminate].
  intro X. inversion X; subst. exists drawn.
  split; [reflexivity|]. split.
  - now rewrite (fontTypeLoop_length _ _ _ _ _ E).
  - rewrite fontTypeLegend_length, entries_length.
    now rewrite (Permutation_length
                   (Permutation_filter_runs _ _ _ (fontColorsOf_keys ms))).
Qed.

Lemma font_type_plan_witness :
  exists rects : list DrawOp,
    List.length rects
    = List.length (filter (onDocument [800%Q]) [lowRun; farRun]).
Proof.
  destruct (fontTypePlan_total [800%Q] [lowRun; farRun]) as [plan E].
  destruct (font_type_plan_size [800%Q] [lowRun; farRun] plan E)
    as [rects [_ [L _]]].
  exists rects. exact L.
Defined.

(** ** What a font-family issue highlights *)

Lemma fontsOf_length (c : Context) (ms : list Metric) :
  (List.length (fontsOf c ms) <= List.length (runsIn c ms))%nat.
Proof.
  destruct (fontsOf_spec c ms) as [ND HIn].
  rewrite <- (length_map fontFamily (runsIn c ms)).
  apply NoDup_incl_length; [assumption|].
  intros f Hf. apply HIn in Hf. destruct Hf as [m [Hm [Hc <-]]].
  apply in_map. apply runsIn_In. tauto.
Qed.

(** X19.  For an issue the font-family detector reports, the runs the
    highlighting overlay selects are all the runs of the issue's context:
    the restriction to the detected families excludes none of them, and
    there are at least 3 such runs. *)
Theorem family_issue_highlights_its_context
        (metrics : list Metric) (issue : Issue) :
  In issue (analyzeFontFamilyConsistency metrics) ->
  exists c : Context,
    issueContext issue = Some c
    /\ filter (affectedByFamily issue) metrics = runsIn c metrics
    /\ (3 <= List.length (runsIn c metrics))%nat.
Proof.
  rewrite analyzeFontFamilyConsistency_flat_map. intro H.
  apply in_flat_map in H. destruct H as [[k v] [Hg H]].
  unfold familyEmit in H.
  destruct (2 <? List.length v)%nat eqn:L; [|destruct H].
  destruct H as [<-|[]]. apply Nat.ltb_lt in L.
  apply get_of_In in Hg; [|apply fontFamilyGroups_keys].
  rewrite fontFamilyGroups_get in Hg.
  assert (V : fontsOf k metrics = v).
  { destruct (runsIn k metrics); [discriminate | now inversion Hg]. }
  clear Hg. exists k. split; [reflexivity|]. split.
  - unfold runsIn. apply filter_ext_in. intros m Hm.
    unfold affectedByFamily. cbn [detectedFonts issueContext familyIssue].
    destruct (Context_eqb (determineContext m) k) eqn:C;
      [|apply andb_false_r].
    rewrite andb_true_r. apply Context_eqb_eq in C.
    apply existsb_exists. exists (fontFamily m).
    split; [|apply String.eqb_refl].
    rewrite <- V. apply fontsOf_spec. now exists m.
  - assert (B := fontsOf_length k metrics). rewrite V in B. lia.
Qed.

Lemma family_issue_highlights_witness :
  exists c : Context,
    issueContext (familyIssue body ["Arial"; "Times"; "Helvetica"]) = Some c
    /\ filter (affectedByFamily
                 (familyIssue body ["Arial"; "Times"; "Helvetica"]))
              familyFixture
       = runsIn c familyFixture
    /\ (3 <= List.length (runsIn c familyFixture))%nat.
Proof.
  apply (family_issue_highlights_its_context familyFixture).
  left. reflexivity.
Defined.
